(** * A shallow embedding of the TimeOut cafes scraper (cafe.py)

    The development follows the source file top to bottom: Python strings and
    the string built-ins the program calls, the fragment of [re] its patterns
    use, [urllib.parse.urljoin], the BeautifulSoup parse tree, then [fetch],
    [extract_article_entries], [extract_by_headings], [scrape_venue_info] and
    the row assembly of [main]; then the vocabulary of the statements and the
    example inputs; then the theorems. *)

From Stdlib Require Import List NArith ZArith QArith Qpower Bool String Ascii.
From Stdlib Require Import Lia Lqa.
Import ListNotations.

Set Implicit Arguments.
Local Open Scope nat_scope.
Local Open Scope list_scope.

(* ================================================================== *)
(** ** Python strings *)
(* ================================================================== *)

(** A Python [str] is a sequence of Unicode code points. *)
Definition char := N.
Definition str := list char.

(** Source literals are written as UTF-8 text and decoded to code points. *)
Fixpoint utf8_decode (bs : list N) : str :=
  match bs with
  | [] => []
  | b :: r =>
      if (b <? 128)%N then b :: utf8_decode r
      else if (b <? 224)%N then
        match r with
        | c1 :: r1 => ((b - 192) * 64 + (c1 - 128))%N :: utf8_decode r1
        | _ => []
        end
      else if (b <? 240)%N then
        match r with
        | c1 :: c2 :: r2 =>
            ((b - 224) * 4096 + (c1 - 128) * 64 + (c2 - 128))%N :: utf8_decode r2
        | _ => []
        end
      else
        match r with
        | c1 :: c2 :: c3 :: r3 =>
            ((b - 240) * 262144 + (c1 - 128) * 4096 + (c2 - 128) * 64 + (c3 - 128))%N
              :: utf8_decode r3
        | _ => []
        end
  end.

Definition py (s : string) : str :=
  utf8_decode (map (fun a => N_of_ascii a) (list_ascii_of_string s)).
Arguments py s%_string.

Definition str_eqb (a b : str) : bool :=
  if list_eq_dec N.eq_dec a b then true else false.

(** [bool(s)] for a string. *)
Definition truthy (s : str) : bool :=
  match s with [] => false | _ => true end.

(** [s.startswith(p)] *)
Fixpoint startswith (p s : str) : bool :=
  match p, s with
  | [], _ => true
  | a :: p', b :: s' => (a =? b)%N && startswith p' s'
  | _ :: _, [] => false
  end.

(** [p in s] *)
Fixpoint contains (p s : str) : bool :=
  startswith p s ||
  match s with
  | [] => false
  | _ :: s' => contains p s'
  end.

(** [s.find(c)] for a one-character needle. *)
Fixpoint find_char (c : char) (s : str) : option nat :=
  match s with
  | [] => None
  | a :: s' => if (a =? c)%N then Some 0%nat else option_map S (find_char c s')
  end.

(** [sep.join(parts)] *)
Fixpoint join (sep : str) (parts : list str) : str :=
  match parts with
  | [] => []
  | [p] => p
  | p :: rest => p ++ sep ++ join sep rest
  end.

(** [s.split(c)] for a one-character separator: empty pieces are kept. *)
Fixpoint split_on (c : char) (s : str) : list str :=
  match s with
  | [] => [[]]
  | a :: s' =>
      match split_on c s' with
      | [] => [[]]
      | piece :: rest =>
          if (a =? c)%N then [] :: piece :: rest else (a :: piece) :: rest
      end
  end.

(** [s.replace(old, new)] for a non-empty [old]; [skip] counts the characters
    of the occurrence being replaced that are still to be dropped. *)
Fixpoint replace_go (old new : str) (s : str) (skip : nat) : str :=
  match s with
  | [] => []
  | a :: s' =>
      match skip with
      | S k => replace_go old new s' k
      | O =>
          if startswith old s
          then new ++ replace_go old new s' (pred (List.length old))
          else a :: replace_go old new s' 0
      end
  end.

Definition replace (old new s : str) : str := replace_go old new s 0.

(** [s[:n]] and [s[a:b]] on non-negative bounds. *)
Definition slice_to (n : nat) (s : str) : str := firstn n s.
Definition slice (a b : nat) (s : str) : str := firstn (b - a) (skipn a s).

(** ** Tables of the Python runtime

    The Unicode database behind [str.isspace], [str.lower], the classes
    [\s] and [\d] and the case-insensitive comparison of [re], the NFKC
    normal form and [ipaddress.ip_address] belong to the interpreter, not to
    the program.  The development is parametric in them. *)
Class Runtime := {
  isspace : char -> bool;           (* str.isspace, \s *)
  isdecimal : char -> bool;         (* \d *)
  lower : str -> str;               (* str.lower *)
  sre_ieq : char -> char -> bool;   (* pattern character vs. subject under re.I *)
  nfkc : str -> str;                (* unicodedata.normalize('NFKC', _) *)
  ip_address : str -> option bool   (* Some true: IPv4, Some false: IPv6, None: ValueError *)
}.

Section Strings.
Context {RT : Runtime}.

(** [s.lstrip()], [s.rstrip()], [s.strip()] *)
Fixpoint lstrip (s : str) : str :=
  match s with
  | [] => []
  | a :: s' => if isspace a then lstrip s' else s
  end.

Definition rstrip (s : str) : str := rev (lstrip (rev s)).
Definition strip (s : str) : str := rstrip (lstrip s).

(** [s.split()]: maximal runs of non-whitespace characters. *)
Fixpoint split_ws_go (s : str) (cur : str) : list str :=
  match s with
  | [] => match cur with [] => [] | _ => [rev cur] end
  | a :: s' =>
      if isspace a
      then match cur with
           | [] => split_ws_go s' []
           | _ => rev cur :: split_ws_go s' []
           end
      else split_ws_go s' (a :: cur)
  end.

Definition split_ws (s : str) : list str := split_ws_go s [].

End Strings.

(* ================================================================== *)
(** ** The fragment of [re] used by the program *)
(* ================================================================== *)

(** One-character items: [.], a literal, [\s], [\d], a range [[a-b]] and
    unions of these (character sets). *)
Inductive cset :=
| CAny
| CLit (c : char)
| CSpace
| CDigit
| CRange (lo hi : char)
| COr (a b : cset).

(** Patterns.  Repetition is only ever applied to one-character items in the
    source ([\s*], [\d+], [.+?], [s?], [[\d\s\-]{7,}]); there is at most one
    capturing group. *)
Inductive regex :=
| REps
| RChar (c : cset)
| RSeq (a b : regex)
| RAlt (a b : regex)
| RRep (c : cset) (lo : nat) (hi : option nat) (greedy : bool)
| RGroup (a : regex)          (* ( ... ) , group 1 *)
| RLook (a : regex)           (* (?= ... ) *)
| RBos                        (* ^ without re.MULTILINE *)
| REos.                       (* $ without re.MULTILINE *)

Record flags := { IGNORECASE : bool; DOTALL : bool }.
Definition no_flags : flags := {| IGNORECASE := false; DOTALL := false |}.
Definition flag_I : flags := {| IGNORECASE := true; DOTALL := false |}.
Definition flag_SI : flags := {| IGNORECASE := true; DOTALL := true |}.

(** A literal string as a pattern. *)
Fixpoint lit (m : str) : regex :=
  match m with
  | [] => REps
  | c :: m' => RSeq (RChar (CLit c)) (lit m')
  end.

Definition alts (rs : list regex) (last : regex) : regex :=
  fold_right RAlt last rs.

Definition seqs (rs : list regex) : regex := fold_right RSeq REps rs.

Definition star (c : cset) : regex := RRep c 0 None true.
Definition plus (c : cset) : regex := RRep c 1 None true.
Definition lazy_plus (c : cset) : regex := RRep c 1 None false.
Definition opt (c : cset) : regex := RRep c 0 (Some 1%nat) true.

(** Span of group 1, as (start, end). *)
Definition cap := option (nat * nat).

Section Regex.
Context {RT : Runtime}.
Variable fl : flags.

Fixpoint Nrange (lo : N) (n : nat) : list N :=
  match n with
  | O => []
  | S n' => lo :: Nrange (N.succ lo) n'
  end.

Fixpoint cmatch (c : cset) (ch : char) : bool :=
  match c with
  | CAny => DOTALL fl || negb (ch =? 10)%N
  | CLit a => if IGNORECASE fl then sre_ieq a ch else (a =? ch)%N
  | CSpace => isspace ch
  | CDigit => isdecimal ch
  | CRange lo hi =>
      if IGNORECASE fl
      then existsb (fun d => sre_ieq d ch) (Nrange lo (N.to_nat (N.succ hi - lo)))
      else ((lo <=? ch) && (ch <=? hi))%N
  | COr a b => cmatch a ch || cmatch b ch
  end.

Definition may_repeat (hi : option nat) : bool :=
  match hi with Some O => false | _ => true end.

(** Backtracking repetition of a one-character item, between [lo] and [hi]
    times; greedy tries one more character first, lazy tries to stop first. *)
Fixpoint rep (R : Type) (c : cset) (greedy : bool) (k : nat -> str -> option R)
         (lo : nat) (hi : option nat) (i : nat) (s : str) {struct s} : option R :=
  let stop := fun _ : unit => match lo with O => k i s | S _ => None end in
  let more := fun _ : unit =>
    match s with
    | ch :: s' =>
        if may_repeat hi && cmatch c ch
        then rep c greedy k (pred lo) (option_map pred hi) (S i) s'
        else None
    | [] => None
    end in
  if greedy
  then match more tt with Some x => Some x | None => stop tt end
  else match stop tt with Some x => Some x | None => more tt end.

(** The matcher, in continuation-passing style: [rmatch r i s g k] matches [r]
    at offset [i], where [s] is the rest of the subject from [i] on, and hands
    the end offset, the remaining text and the group span to [k]; alternatives
    are tried in the priority order of [re]. *)
Fixpoint rmatch (r : regex) (R : Type) (i : nat) (s : str) (g : cap)
         (k : nat -> str -> cap -> option R) {struct r} : option R :=
  match r with
  | REps => k i s g
  | RChar c =>
      match s with
      | ch :: s' => if cmatch c ch then k (S i) s' g else None
      | [] => None
      end
  | RSeq a b => rmatch a i s g (fun j s' g' => rmatch b j s' g' k)
  | RAlt a b =>
      match rmatch a i s g k with
      | Some x => Some x
      | None => rmatch b i s g k
      end
  | RRep c lo hi greedy => rep c greedy (fun j s' => k j s' g) lo hi i s
  | RGroup a => rmatch a i s g (fun j s' _ => k j s' (Some (i, j)))
  | RLook a =>
      match rmatch a i s g (fun _ _ g' => Some g') with
      | Some g' => k i s g'
      | None => None
      end
  | RBos => if Nat.eqb i 0 then k i s g else None
  | REos =>
      match s with
      | [] => k i s g
      | [ch] => if (ch =? 10)%N then k i s g else None
      | _ => None
      end
  end.

(** A match object: [m.start()], [m.end()] and the span of group 1. *)
Record rmatch_obj := { m_start : nat; m_end : nat; m_group1 : cap }.

Definition match_at (r : regex) (i : nat) (s : str) : option rmatch_obj :=
  rmatch r i s None (fun j _ g => Some {| m_start := i; m_end := j; m_group1 := g |}).

(** [re.match(r, s)] *)
Definition re_match (r : regex) (s : str) : option rmatch_obj := match_at r 0 s.

(** [re.search(r, s)]: leftmost start offset first. *)
Fixpoint search_from (r : regex) (i : nat) (s : str) : option rmatch_obj :=
  match match_at r i s with
  | Some m => Some m
  | None =>
      match s with
      | [] => None
      | _ :: s' => search_from r (S i) s'
      end
  end.

Definition re_search (r : regex) (s : str) : option rmatch_obj := search_from r 0 s.

(** [m.group(0)] and [m.group(1)] of a match in [s]. *)
Definition group0 (s : str) (m : rmatch_obj) : str := slice (m_start m) (m_end m) s.
Definition group1 (s : str) (m : rmatch_obj) : str :=
  match m_group1 m with
  | Some (a, b) => slice a b s
  | None => []
  end.

(** A non-empty match at offset [i] (what the engine looks for when it must
    advance past an empty match). *)
Definition advance_at (r : regex) (i : nat) (s : str) : option nat :=
  rmatch r i s None (fun j _ _ => if Nat.eqb j i then None else Some j).

(** [re.sub(r, '', s)]: every non-overlapping match is deleted.  An empty
    match deletes nothing, so only matches that advance matter; [skip] counts
    the characters of the current match still to be dropped. *)
Fixpoint sub_go (r : regex) (s : str) (i : nat) (skip : nat) : str :=
  match s with
  | [] => []
  | a :: s' =>
      match skip with
      | S n => sub_go r s' (S i) n
      | O =>
          match advance_at r i s with
          | Some j => sub_go r s' (S i) (j - i - 1)
          | None => a :: sub_go r s' (S i) 0
          end
      end
  end.

Definition re_sub_empty (r : regex) (s : str) : str := sub_go r s 0 0.

(** [re.split(r, s)] for a pattern without capturing groups.  The subject is
    cut at every match, empty matches included (Python 3.7 and later); after
    an empty match the engine must advance, so the same offset is tried once
    more for a non-empty match.  [cur] is the piece being built, reversed. *)
Fixpoint split_go (r : regex) (s : str) (i : nat) (cur : str) (skip : nat)
  : list str :=
  match s with
  | [] =>
      match rmatch r i [] None (fun j _ _ => Some j) with
      | Some _ => [rev cur; []]
      | None => [rev cur]
      end
  | a :: s' =>
      match skip with
      | S n => split_go r s' (S i) cur n
      | O =>
          match rmatch r i s None (fun j _ _ => Some j) with
          | Some j =>
              if Nat.eqb j i
              then rev cur ::
                   match advance_at r i s with
                   | Some j2 => [] :: split_go r s' (S i) [] (j2 - i - 1)
                   | None => split_go r s' (S i) [a] 0
                   end
              else rev cur :: split_go r s' (S i) [] (j - i - 1)
          | None => split_go r s' (S i) (a :: cur) 0
          end
      end
  end.

Definition re_split (r : regex) (s : str) : list str := split_go r s 0 [] 0.

End Regex.

(** ** A concrete runtime for evaluating examples

    [isspace] is the complete list of CPython's whitespace code points;
    [isdecimal] and [lower] are CPython's tables restricted to U+0000..U+00FF
    (other code points are left alone); [sre_ieq] is exact whenever the pattern
    character is ASCII, which is the case for every pattern of the program.
    [nfkc] and [ip_address] are consulted only for URLs naming a non-ASCII or
    a bracketed host; this instance rejects bracketed hosts. *)
Definition latin1_isspace (c : char) : bool :=
  (((9 <=? c) && (c <=? 13)) || ((28 <=? c) && (c <=? 32)) || (c =? 133) || (c =? 160)
   || (c =? 5760) || ((8192 <=? c) && (c <=? 8202)) || (c =? 8232) || (c =? 8233)
   || (c =? 8239) || (c =? 8287) || (c =? 12288))%N.

Definition latin1_isdecimal (c : char) : bool := ((48 <=? c) && (c <=? 57))%N.

Definition latin1_lower_char (c : char) : char :=
  (if ((65 <=? c) && (c <=? 90)) || ((192 <=? c) && (c <=? 222) && negb (c =? 215))
   then c + 32 else c)%N.

Definition latin1_sre_ieq (a b : char) : bool :=
  ((latin1_lower_char a =? latin1_lower_char b)
   || ((latin1_lower_char a =? 115) && (b =? 383))
   || ((latin1_lower_char a =? 107) && (b =? 8490))
   || ((latin1_lower_char a =? 105) && ((b =? 304) || (b =? 305))))%N.

#[export] Instance latin1_runtime : Runtime := {|
  isspace := latin1_isspace;
  isdecimal := latin1_isdecimal;
  lower := map latin1_lower_char;
  sre_ieq := latin1_sre_ieq;
  nfkc := fun s => s;
  ip_address := fun _ => None
|}.

(* ================================================================== *)
(** ** Exceptions *)
(* ================================================================== *)

Inductive exc :=
| ValueError (msg : str)
| TypeError (msg : str)
| RequestException (code : N)   (* whatever [requests.get] / [raise_for_status] raise *)
| ParserError (code : N).       (* whatever building the parse tree raises *)

Inductive result (A : Type) :=
| Ok (a : A)
| Raise (e : exc).
Arguments Ok {A} a.
Arguments Raise {A} e.

Definition rbind {A B} (r : result A) (f : A -> result B) : result B :=
  match r with
  | Ok a => f a
  | Raise e => Raise e
  end.

Declare Scope result_scope.
Delimit Scope result_scope with result.
Notation "'let?' x := r 'in' k" := (rbind r (fun x => k))
  (at level 10, x name, r at level 100, k at level 200) : result_scope.

(* ================================================================== *)
(** ** [urllib.parse.urljoin] (CPython 3.11) *)
(* ================================================================== *)

Module Url.
Section Url.
Context {RT : Runtime}.
Local Open Scope result_scope.

Definition uses_relative : list str :=
  Eval vm_compute in
    map py [""; "ftp"; "http"; "gopher"; "nntp"; "imap"; "wais"; "file"; "https";
            "shttp"; "mms"; "prospero"; "rtsp"; "rtspu"; "sftp"; "svn"; "svn+ssh";
            "ws"; "wss"]%string.

Definition uses_netloc : list str :=
  Eval vm_compute in
    map py [""; "ftp"; "http"; "gopher"; "nntp"; "telnet"; "imap"; "wais"; "file";
            "mms"; "https"; "shttp"; "snews"; "prospero"; "rtsp"; "rtspu"; "rsync";
            "svn"; "svn+ssh"; "sftp"; "nfs"; "git"; "git+ssh"; "ws"; "wss"]%string.

Definition uses_params : list str :=
  Eval vm_compute in
    map py [""; "ftp"; "hdl"; "prospero"; "http"; "imap"; "https"; "shttp"; "rtsp";
            "rtspu"; "sip"; "sips"; "mms"; "sftp"; "tel"]%string.

Definition mem (s : str) (l : list str) : bool := existsb (str_eqb s) l.
Definition has_char (c : char) (s : str) : bool := existsb (N.eqb c) s.

Definition ascii_alpha (c : char) : bool :=
  (((65 <=? c) && (c <=? 90)) || ((97 <=? c) && (c <=? 122)))%N.
Definition ascii_digit (c : char) : bool := ((48 <=? c) && (c <=? 57))%N.
Definition ascii_lower (c : char) : char :=
  (if (65 <=? c) && (c <=? 90) then c + 32 else c)%N.
Definition isascii (s : str) : bool := forallb (fun c => (c <? 128)%N) s.

(** [c in scheme_chars] *)
Definition scheme_char (c : char) : bool :=
  (ascii_alpha c || ascii_digit c || (c =? 43) || (c =? 45) || (c =? 46))%N.

(** [_WHATWG_C0_CONTROL_OR_SPACE] is the code points 0..32. *)
Fixpoint lstrip_c0 (s : str) : str :=
  match s with
  | [] => []
  | a :: s' => if (a <=? 32)%N then lstrip_c0 s' else s
  end.
Definition strip_c0 (s : str) : str := rev (lstrip_c0 (rev (lstrip_c0 s))).

(** Removal of [_UNSAFE_URL_BYTES_TO_REMOVE] (tab, CR, LF). *)
Definition remove_unsafe (s : str) : str :=
  filter (fun c => negb ((c =? 9) || (c =? 13) || (c =? 10))%N) s.

(** [s.partition(c)] as (before, found, after). *)
Definition partition (c : char) (s : str) : str * bool * str :=
  match find_char c s with
  | Some i => (firstn i s, true, skipn (S i) s)
  | None => (s, false, [])
  end.

(** [s.rpartition(c)[2]] *)
Definition after_last (c : char) (s : str) : str :=
  match find_char c (rev s) with
  | Some i => skipn (List.length s - i) s
  | None => s
  end.

(** [_splitnetloc(url, 2)] on a [url] that starts with two slashes. *)
Fixpoint span_netloc (s : str) : str * str :=
  match s with
  | [] => ([], [])
  | a :: s' =>
      if ((a =? 47) || (a =? 63) || (a =? 35))%N then ([], s)
      else let (n, rest) := span_netloc s' in (a :: n, rest)
  end.

Definition ascii_hex (c : char) : bool :=
  (ascii_digit c || ((65 <=? c) && (c <=? 70)) || ((97 <=? c) && (c <=? 102)))%N.

Fixpoint drop_hex (s : str) : str :=
  match s with
  | [] => []
  | a :: s' => if ascii_hex a then drop_hex s' else s
  end.

(** [re.match(r"\Av[a-fA-F0-9]+\..+\Z", hostname)] *)
Definition ipvfuture (hostname : str) : bool :=
  match hostname with
  | 118%N :: h :: rest =>
      ascii_hex h &&
      match drop_hex rest with
      | 46%N :: tail => truthy tail && negb (has_char 10%N tail)
      | _ => false
      end
  | _ => false
  end.

Definition invalid_ipv6 : exc := ValueError (py "Invalid IPv6 URL").

Definition _check_bracketed_host (hostname : str) : result unit :=
  if startswith (py "v") hostname
  then if ipvfuture hostname then Ok tt
       else Raise (ValueError (py "IPvFuture address is invalid"))
  else match ip_address hostname with
       | None => Raise (ValueError (py "not an IPv4 or IPv6 address"))
       | Some true => Raise (ValueError (py "An IPv4 address cannot be in brackets"))
       | Some false => Ok tt
       end.

Definition _check_bracketed_netloc (netloc : str) : result unit :=
  let hostname_and_port := after_last 64%N netloc in
  let '(before_bracket, have_open_br, bracketed) := partition 91%N hostname_and_port in
  if have_open_br then
    if truthy before_bracket then Raise invalid_ipv6
    else
      let '(hostname, _, port) := partition 93%N bracketed in
      if truthy port && negb (startswith (py ":") port) then Raise invalid_ipv6
      else _check_bracketed_host hostname
  else
    let '(hostname, _, _) := partition 58%N hostname_and_port in
    _check_bracketed_host hostname.

Definition _checknetloc (netloc : str) : result unit :=
  if negb (truthy netloc) || isascii netloc then Ok tt
  else
    let n := filter (fun c => negb ((c =? 64) || (c =? 58) || (c =? 35) || (c =? 63))%N)
                    netloc in
    let netloc2 := nfkc n in
    if str_eqb n netloc2 then Ok tt
    else if existsb (fun c => has_char c netloc2) [47; 63; 35; 64; 58]%N
         then Raise (ValueError (py "netloc contains invalid characters"))
         else Ok tt.

Record SplitResult := {
  s_scheme : str; s_netloc : str; s_path : str; s_query : str; s_fragment : str
}.

Record ParseResult := {
  scheme : str; netloc : str; path : str; params : str; query : str; fragment : str
}.

(** The scheme prefix of [url], if [url[:i]] for the first colon at [i > 0]
    consists of scheme characters and starts with an ASCII letter. *)
Definition split_scheme (default : str) (url : str) : str * str :=
  match find_char 58%N url, url with
  | Some (S i), c0 :: _ =>
      if (c0 <? 128)%N && ascii_alpha c0 && forallb scheme_char (firstn (S i) url)
      then (map ascii_lower (firstn (S i) url), skipn (S (S i)) url)
      else (default, url)
  | _, _ => (default, url)
  end.

Definition urlsplit (url0 scheme0 : str) : result SplitResult :=
  let url := remove_unsafe (lstrip_c0 url0) in
  let scheme := remove_unsafe (strip_c0 scheme0) in
  let (scheme, url) := split_scheme scheme url in
  let? nu :=
    (if startswith (py "//") url then
       let (netloc, rest) := span_netloc (skipn 2 url) in
       let lb := has_char 91%N netloc in
       let rb := has_char 93%N netloc in
       if (lb && negb rb) || (rb && negb lb) then Raise invalid_ipv6
       else
         let? _ := (if lb && rb then _check_bracketed_netloc netloc else Ok tt) in
         Ok (netloc, rest)
     else Ok ([], url)) in
  let (netloc, url) := nu : str * str in
  let '(url, _, fragment) := partition 35%N url in
  let '(url, _, query) := partition 63%N url in
  let? _ := _checknetloc netloc in
  Ok {| s_scheme := scheme; s_netloc := netloc; s_path := url;
        s_query := query; s_fragment := fragment |}.

(** [url.find(';', url.rfind('/'))] and the split around it. *)
Definition _splitparams (url : str) : str * str :=
  if has_char 47%N url then
    let tail := after_last 47%N url in
    let head := firstn (List.length url - List.length tail) url in
    match find_char 59%N tail with
    | Some i => (head ++ firstn i tail, skipn (S i) tail)
    | None => (url, [])
    end
  else
    match find_char 59%N url with
    | Some i => (firstn i url, skipn (S i) url)
    | None => (firstn (List.length url - 1) url, url)
    end.

Definition urlparse (url scheme0 : str) : result ParseResult :=
  let? sp := urlsplit url scheme0 in
  let (url, params) :=
    if mem (s_scheme sp) uses_params && has_char 59%N (s_path sp)
    then _splitparams (s_path sp)
    else (s_path sp, []) in
  Ok {| scheme := s_scheme sp; netloc := s_netloc sp; path := url; params := params;
        query := s_query sp; fragment := s_fragment sp |}.

Definition urlunsplit (scheme netloc url query fragment : str) : str :=
  let url :=
    if truthy netloc
       || (truthy scheme && mem scheme uses_netloc && negb (startswith (py "//") url))
    then py "//" ++ netloc ++
         (if truthy url && negb (startswith (py "/") url) then py "/" ++ url else url)
    else url in
  let url := if truthy scheme then scheme ++ py ":" ++ url else url in
  let url := if truthy query then url ++ py "?" ++ query else url in
  if truthy fragment then url ++ py "#" ++ fragment else url.

Definition urlunparse (p : ParseResult) : str :=
  let url := if truthy (params p) then path p ++ py ";" ++ params p else path p in
  urlunsplit (scheme p) (netloc p) url (query p) (fragment p).

(** [segments[1:-1] = filter(None, segments[1:-1])] *)
Definition squeeze_middle (segments : list str) : list str :=
  match segments with
  | [] => []
  | [a] => [a]
  | a :: rest => a :: filter truthy (removelast rest) ++ [List.last rest []]
  end.

(** The loop over [segments]; [resolved] is [resolved_path], reversed. *)
Fixpoint resolve_segments (segments : list str) (resolved : list str) : list str :=
  match segments with
  | [] => rev resolved
  | seg :: rest =>
      if str_eqb seg (py "..") then resolve_segments rest (List.tl resolved)
      else if str_eqb seg (py ".") then resolve_segments rest resolved
      else resolve_segments rest (seg :: resolved)
  end.

Definition urljoin (base url : str) : result str :=
  if negb (truthy base) then Ok url
  else if negb (truthy url) then Ok base
  else
    let? b := urlparse base [] in
    let? u := urlparse url (scheme b) in
    if negb (str_eqb (scheme u) (scheme b)) || negb (mem (scheme u) uses_relative)
    then Ok url
    else if mem (scheme u) uses_netloc && truthy (netloc u)
    then Ok (urlunparse u)
    else
      let netloc' := if mem (scheme u) uses_netloc then netloc b else netloc u in
      if negb (truthy (path u)) && negb (truthy (params u)) then
        Ok (urlunparse {| scheme := scheme u; netloc := netloc'; path := path b;
                          params := params b;
                          query := if truthy (query u) then query u else query b;
                          fragment := fragment u |})
      else
        let base_parts := split_on 47%N (path b) in
        let base_parts :=
          if truthy (List.last base_parts []) then removelast base_parts
          else base_parts in
        let segments :=
          if startswith (py "/") (path u) then split_on 47%N (path u)
          else squeeze_middle (base_parts ++ split_on 47%N (path u)) in
        let resolved_path := resolve_segments segments [] in
        let resolved_path :=
          if mem (List.last segments []) [py "."; py ".."]
          then resolved_path ++ [[]] else resolved_path in
        let joined := join (py "/") resolved_path in
        Ok (urlunparse {| scheme := scheme u; netloc := netloc';
                          path := if truthy joined then joined else py "/";
                          params := params u; query := query u;
                          fragment := fragment u |}).

End Url.
End Url.

(* ================================================================== *)
(** ** The BeautifulSoup parse tree *)
(* ================================================================== *)

(** A page element, as bs4 4.12 builds it with "html.parser".  [Text] stands
    for [NavigableString] and [CData]; [Other cls] for a string of any other
    class, named by [cls]: [Comment], [Doctype], and the classes the builder
    gives to the text inside [script], [style], [template], [rt] and [rp]. *)
#[warnings="-register-all"]
Inductive node :=
| Text (s : str)
| Other (cls : str) (s : str)
| Tag (tag : str) (attrs : list (str * str)) (contents : list node).

(** [builder.string_containers]: the class of the strings a tag of this name
    holds, which is also the only class its own [get_text] returns. *)
Definition string_container (tag : str) : option str :=
  if str_eqb tag (py "rt") then Some (py "RubyTextString")
  else if str_eqb tag (py "rp") then Some (py "RubyParenthesisString")
  else if str_eqb tag (py "style") then Some (py "Stylesheet")
  else if str_eqb tag (py "script") then Some (py "Script")
  else if str_eqb tag (py "template") then Some (py "TemplateString")
  else None.

Definition children (n : node) : list node :=
  match n with
  | Tag _ _ cs => cs
  | _ => []
  end.

(** [n.name]: [None] for strings. *)
Definition tag_name (n : node) : option str :=
  match n with
  | Tag t _ _ => Some t
  | _ => None
  end.

Definition name_is (t : str) (n : node) : bool :=
  match tag_name n with
  | Some t' => str_eqb t t'
  | None => false
  end.

Definition name_in (ts : list str) (n : node) : bool :=
  existsb (fun t => name_is t n) ts.

(** [n.get(key)] on the attribute dictionary; a missing key and a string
    node both give the empty (falsy) answer the callers test for. *)
Fixpoint lookup (key : str) (attrs : list (str * str)) : option str :=
  match attrs with
  | [] => None
  | (k, v) :: rest => if str_eqb key k then Some v else lookup key rest
  end.

Definition get (key : str) (n : node) : option str :=
  match n with
  | Tag _ a _ => lookup key a
  | _ => None
  end.

Definition get_or_empty (key : str) (n : node) : str :=
  match get key n with
  | Some v => v
  | None => []
  end.

(** Document order: the node, then its descendants. *)
Fixpoint preorder (n : node) : list node :=
  n :: match n with
       | Tag _ _ cs =>
           (fix forest (l : list node) : list node :=
              match l with
              | [] => []
              | c :: l' => preorder c ++ forest l'
              end) cs
       | _ => []
       end.

Definition preorder_forest (l : list node) : list node := flat_map preorder l.

(** A node together with its place in the tree: the siblings after it
    ([next_sibling] chain) and everything after its subtree in document order. *)
Record located := { here : node; siblings : list node; after : list node }.

(** [next_elements]: descendants first, then the rest of the document. *)
Definition following (l : located) : list node :=
  preorder_forest (children (here l)) ++ after l.

Fixpoint locate (n : node) (sibs aft : list node) {struct n} : list located :=
  {| here := n; siblings := sibs; after := aft |} ::
  match n with
  | Tag _ _ cs =>
      (fix forest (l : list node) : list located :=
         match l with
         | [] => []
         | c :: l' => locate c l' (preorder_forest l' ++ aft) ++ forest l'
         end) cs
  | _ => []
  end.

(** All descendants of a located element, in document order. *)
Definition descendants (l : located) : list located :=
  List.tl (locate (here l) (siblings l) (after l)).

(** The [BeautifulSoup] object is the root of the tree. *)
Definition soup_root (soup : node) : located :=
  {| here := soup; siblings := []; after := [] |}.

(** [e.find_all(names)], [e.find(name)], [e.find_next(name)] *)
Definition find_all (names : list str) (e : located) : list located :=
  filter (fun l => name_in names (here l)) (descendants e).

Definition find (name : str) (e : located) : option located :=
  List.hd_error (find_all [name] e).

Definition find_next (name : str) (e : located) : option node :=
  List.find (name_is name) (following e).

Section Soup.
Context {RT : Runtime}.

(** The strings of the classes in [interesting_string_types]: plain text
    for an ordinary tag and for a string node, the container's own class for
    a container tag. *)
Definition interesting (n d : node) : option str :=
  match n, d with
  | Tag t _ _, Text s =>
      match string_container t with
      | None => Some s
      | Some _ => None
      end
  | Tag t _ _, Other cls s =>
      match string_container t with
      | Some c => if str_eqb c cls then Some s else None
      | None => None
      end
  | Text _, Text s => Some s
  | _, _ => None
  end.

(** [_all_strings(strip=True)]: the stripped, non-empty interesting strings
    of the element in document order. *)
Definition stripped_strings (n : node) : list str :=
  flat_map (fun d => match interesting n d with
                     | Some s => match strip s with [] => [] | t => [t] end
                     | None => []
                     end) (preorder n).

(** [n.get_text(sep, strip=True)] *)
Definition get_text (sep : str) (n : node) : str := join sep (stripped_strings n).

End Soup.

(* ================================================================== *)
(** ** Configuration and records *)
(* ================================================================== *)

Definition URL : str :=
  Eval vm_compute in
    py "https://www.timeout.com/london/food-drink/londons-best-cafes-and-coffee-shops".

Definition MAX_ITEMS : nat := 20.

(** The [entry] dictionaries both extractors build. *)
Record entry := {
  name : str;
  description : str;
  address : str;
  opening_hours : str;
  source_link : str
}.

(** Log records, by the call that writes them. *)
Inductive message :=
| MainContentMissing   (* error: "Could not find main content area" *)
| PatternFailed        (* info: "Pattern-based extraction failed, trying heading-based method" *)
| FetchFailed (attempt : Z) (url : str) (e : exc) (wait : Q)
                       (* info: "Fetch failed ({attempt}) {url} -> {e}; waiting {wait:.1f}s" *)
| ScrapeFailed (url : str) (e : exc)
                       (* info: "scrape_venue_info failed for {url}: {e}" *)
| ScrapeError (url : str) (e : exc)
                       (* warning: "Error scraping {source_link}: {ex}" *)
| MainFetchFailed (e : exc)   (* error: "Main fetch failed: {e}" *)
| NoEntries.                  (* warning: "No entries extracted" *)

(* ================================================================== *)
(** ** The patterns of the two extractors *)
(* ================================================================== *)

Definition marker : str := Eval vm_compute in py "What is it?".
Definition why_marker : str := Eval vm_compute in py "Why we love it:".
Definition order_marker : str := Eval vm_compute in py "Order this:".
Definition address_marker : str := Eval vm_compute in py "Address:".

(** [(?=What is it\?)] *)
Definition split_re : regex := RLook (lit marker).

(** [^\d+\.\s*] *)
Definition ordinal_re : regex :=
  RSeq RBos (RSeq (plus CDigit) (RSeq (RChar (CLit 46%N)) (star CSpace))).

(** [What is it\?\s*(.+?)(?=Why we love it:|Order this:|Address:|$)] *)
Definition what_re : regex :=
  seqs [lit marker; star CSpace; RGroup (lazy_plus CAny);
        RLook (alts [lit why_marker; lit order_marker; lit address_marker] REos)].

(** [Why we love it:\s*(.+?)(?=Order this:|Address:|$)] *)
Definition why_re : regex :=
  seqs [lit why_marker; star CSpace; RGroup (lazy_plus CAny);
        RLook (alts [lit order_marker; lit address_marker] REos)].

(** [Opening hours?:] *)
Definition opening_hours_prefix : regex :=
  seqs [lit (py "Opening hour"); opt (CLit 115%N); lit (py ":")].

(** [Address:\s*(.+?)(?=Opening hours?:|$)] *)
Definition addr_re : regex :=
  seqs [lit address_marker; star CSpace; RGroup (lazy_plus CAny);
        RLook (alts [opening_hours_prefix] REos)].

(** [Opening hours?:\s*(.+?)(?=\n\n|$)] *)
Definition hours_re : regex :=
  seqs [opening_hours_prefix; star CSpace; RGroup (lazy_plus CAny);
        RLook (alts [lit [10; 10]%N] REos)].

(** [What is it\?\s*(.+?)(?=Why we love it:|Address:|$)] *)
Definition heading_what_re : regex :=
  seqs [lit marker; star CSpace; RGroup (lazy_plus CAny);
        RLook (alts [lit why_marker; lit address_marker] REos)].

(** [Address:\s*(.+?)(?=Opening|$)] *)
Definition heading_addr_re : regex :=
  seqs [lit address_marker; star CSpace; RGroup (lazy_plus CAny);
        RLook (alts [lit (py "Opening")] REos)].

(** [Opening hours?:\s*(.+?)(?:\.|$)] *)
Definition heading_hours_re : regex :=
  seqs [opening_hours_prefix; star CSpace; RGroup (lazy_plus CAny);
        RAlt (lit (py ".")) REos].

(** [^h[1-6]$] *)
Definition heading_tag_re : regex :=
  seqs [RBos; lit (py "h"); RChar (CRange 49%N 54%N); REos].

Definition noise_tokens : list str :=
  Eval vm_compute in map py ["recommended"; "stars"; "shopping"; "out of"]%string.

Definition generic_tokens : list str :=
  Eval vm_compute in map py ["best café"; "top"; "london"; "time out"]%string.

Definition venue_marker : str := Eval vm_compute in py "/venue/".

(* ================================================================== *)
(** ** [extract_by_headings] and [extract_article_entries] *)
(* ================================================================== *)

Section Extractors.
Context {RT : Runtime}.
Local Open Scope result_scope.

(** [re.sub(r'^\d+\.\s*', '', s)] *)
Definition strip_ordinal (s : str) : str := re_sub_empty no_flags ordinal_re s.

(** [re.sub(r'^\d+\.\s*', '', s).strip()], the name both extractors keep. *)
Definition clean_name (s : str) : str := strip (strip_ordinal s).

(** [m.group(1).strip()] of a search, the empty string when nothing matches. *)
Definition searched (fl : flags) (r : regex) (s : str) : option str :=
  option_map (fun m => strip (group1 s m)) (re_search fl r s).

Definition or_empty (o : option str) : str :=
  match o with
  | Some s => s
  | None => []
  end.

(** Lines 85-95: the name is the first of the first five lines that passes
    every test. *)
Fixpoint resolve_name (lines : list str) : str :=
  match lines with
  | [] => []
  | line0 :: rest =>
      let line := strip line0 in
      if truthy line && (List.length line <? 100)%nat && negb (contains marker line)
      then if negb (existsb (fun x => contains x (lower line)) noise_tokens)
           then if (2 <=? List.length (split_ws line))%nat
                then clean_name line
                else resolve_name rest
           else resolve_name rest
      else resolve_name rest
  end.

(** Lines 97-108. *)
Definition resolve_description (entry_text : str) : str :=
  let d := or_empty (searched flag_SI what_re entry_text) in
  if negb (truthy d)
  then match searched flag_SI why_re entry_text with
       | Some w => w
       | None => d
       end
  else d.

(** Lines 110-117. *)
Definition resolve_address (entry_text : str) : str :=
  match searched flag_SI addr_re entry_text with
  | Some addr => strip (List.hd [] (split_on 10%N addr))
  | None => []
  end.

(** Lines 119-123. *)
Definition resolve_hours (entry_text : str) : str :=
  match searched flag_SI hours_re entry_text with
  | Some h => replace [10%N] [32%N] h
  | None => []
  end.

(** Lines 76-123: the entry of one segment, before its link is looked up. *)
Definition parse_segment (entry_text : str) : entry :=
  {| name := resolve_name (firstn 5 (split_on 10%N entry_text));
     description := resolve_description entry_text;
     address := resolve_address entry_text;
     opening_hours := resolve_hours entry_text;
     source_link := [] |}.

(** [bool(elem.get('href'))] *)
Definition has_href (n : node) : bool := truthy (get_or_empty (py "href") n).

(** [elem.find('a') or elem.find_next('a')] *)
Definition nearby_anchor (elem : located) : option node :=
  match find (py "a") elem with
  | Some l => Some (here l)
  | None => find_next (py "a") elem
  end.

(** Lines 131-145: the loop over headings and anchors of the content area.
    [urljoin] is the only call that can raise. *)
Fixpoint find_link (nm : str) (elems : list located) : result str :=
  match elems with
  | [] => Ok []
  | elem :: rest =>
      let elem_text := get_text [] (here elem) in
      if contains (lower nm) (lower elem_text) || contains (lower elem_text) (lower nm)
      then
        if name_is (py "a") (here elem) && has_href (here elem)
        then Url.urljoin URL (get_or_empty (py "href") (here elem))
        else
          match nearby_anchor elem with
          | Some link =>
              if has_href link then
                let href := get_or_empty (py "href") link in
                if contains venue_marker href
                   || contains (replace [32%N] [45%N] (lower nm)) (lower href)
                then Url.urljoin URL href
                else find_link nm rest
              else find_link nm rest
          | None => find_link nm rest
          end
      else find_link nm rest
  end.

Definition link_elements (main_content : located) : list located :=
  find_all [py "h2"; py "h3"; py "h4"; py "a"] main_content.

(** A segment is kept when it has a name and a description (line 126). *)
Definition retained (e : entry) : bool := truthy (name e) && truthy (description e).

Definition with_link (e : entry) (link : str) : entry :=
  {| name := name e; description := description e; address := address e;
     opening_hours := opening_hours e; source_link := link |}.

(** Lines 72-150: the loop over the raw segments, with its [continue] and
    [break]. *)
Fixpoint segment_loop (main_content : located) (entries_raw : list str)
         (entries : list entry) : result (list entry) :=
  match entries_raw with
  | [] => Ok entries
  | entry_text :: rest =>
      if negb (contains marker entry_text)
      then segment_loop main_content rest entries
      else
        let e := parse_segment entry_text in
        if retained e then
          let? link := find_link (name e) (link_elements main_content) in
          let entries := entries ++ [with_link e link] in
          if (MAX_ITEMS <=? List.length entries)%nat then Ok entries
          else segment_loop main_content rest entries
        else segment_loop main_content rest entries
  end.

(** Lines 59-67: the text stream. *)
Definition text_blocks (main_content : located) : list str :=
  filter (fun text => truthy text && (20 <? List.length text)%nat)
         (map (fun elem => get_text [10%N] (here elem))
              (find_all [py "p"; py "div"; py "section"; py "li"] main_content)).

Definition full_text (main_content : located) : str :=
  join [10%N] (text_blocks main_content).

(** Lines 70-150 on a given text stream: the candidates of the primary pass. *)
Definition primary_pass (main_content : located) (text : str) : result (list entry) :=
  segment_loop main_content (re_split no_flags split_re text) [].

(** [soup.find('main') or soup.find('article') or soup.find('body')] *)
Definition find_main_content (soup : node) : option located :=
  match find (py "main") (soup_root soup) with
  | Some m => Some m
  | None =>
      match find (py "article") (soup_root soup) with
      | Some a => Some a
      | None => find (py "body") (soup_root soup)
      end
  end.

(** Lines 190-202: text of up to ten following siblings, up to the next
    heading.  Every page element has a [name] (it is [None] for a string) and
    a [next_sibling], so both [hasattr] tests hold; [while current] also stops
    at an empty string node. *)
Fixpoint collect_siblings (sibs : list node) (collected_text : list str) : list str :=
  match sibs with
  | [] => collected_text
  | current :: rest =>
      let present := match current with
                     | Tag _ _ _ => true
                     | Text s | Other _ s => truthy s
                     end in
      if present && (List.length collected_text <? 10)%nat then
        match tag_name current with
        | Some t =>
            match re_match no_flags heading_tag_re t with
            | Some _ => collected_text
            | None =>
                let text := get_text [32%N] current in
                collect_siblings rest
                  (if truthy text then collected_text ++ [text] else collected_text)
            end
        | None =>
            let text := get_text [32%N] current in
            collect_siblings rest
              (if truthy text then collected_text ++ [text] else collected_text)
        end
      else collected_text
  end.

(** Lines 204-212. *)
Definition heading_description (full_text : str) : str :=
  let d := if contains marker full_text
           then or_empty (searched flag_I heading_what_re full_text)
           else [] in
  if negb (truthy d) && (50 <? List.length full_text)%nat
  then slice_to 500 full_text
  else d.

(** Lines 214-218. *)
Definition heading_address (full_text : str) : str :=
  if contains address_marker full_text
  then or_empty (searched flag_I heading_addr_re full_text)
  else [].

(** Lines 220-224. *)
Definition heading_hours (full_text : str) : str :=
  if contains (py "Opening hours") full_text || contains (py "Opening Hours") full_text
  then or_empty (searched flag_I heading_hours_re full_text)
  else [].

(** Lines 226-232. *)
Definition heading_link (h : located) : result str :=
  match nearby_anchor h with
  | Some link =>
      if has_href link then
        let href := get_or_empty (py "href") link in
        if contains venue_marker href || negb (startswith (py "http") href)
        then Url.urljoin URL href
        else Ok []
      else Ok []
  | None => Ok []
  end.

(** Lines 167-244: the loop over the headings; [seen] is the set of keys. *)
Fixpoint heading_loop (headings : list located) (entries : list entry)
         (seen : list str) : result (list entry) :=
  match headings with
  | [] => Ok entries
  | h :: rest =>
      let name0 := get_text [32%N] (here h) in
      if negb (truthy name0) || (100 <? List.length name0)%nat
      then heading_loop rest entries seen
      else if existsb (fun x => contains x (lower name0)) generic_tokens
      then heading_loop rest entries seen
      else
        let nm := clean_name name0 in
        let key := lower nm in
        if existsb (str_eqb key) seen || (List.length (split_ws nm) <? 2)%nat
        then heading_loop rest entries seen
        else
          let seen := key :: seen in
          let full_text := join [32%N] (collect_siblings (siblings h) []) in
          let descr := heading_description full_text in
          let? link := heading_link h in
          let entries :=
            if truthy descr
            then entries ++ [{| name := nm; description := descr;
                                address := heading_address full_text;
                                opening_hours := heading_hours full_text;
                                source_link := link |}]
            else entries in
          if (MAX_ITEMS <=? List.length entries)%nat then Ok entries
          else heading_loop rest entries seen
  end.

Definition extract_by_headings (soup : node) : result (list entry) :=
  heading_loop (find_all [py "h2"; py "h3"; py "h4"] (soup_root soup)) [] [].

(** [extract_article_entries], from the parse tree on: the log it writes and
    what it returns or raises. *)
Definition extract_from_soup (soup : node) : list message * result (list entry) :=
  match find_main_content soup with
  | None => ([MainContentMissing], Ok [])
  | Some main_content =>
      match primary_pass main_content (full_text main_content) with
      | Raise e => ([], Raise e)
      | Ok [] =>
          ([PatternFailed],
           let? entries := extract_by_headings soup in Ok (firstn MAX_ITEMS entries))
      | Ok entries => ([], Ok (firstn MAX_ITEMS entries))
      end
  end.

(** [html_parser] stands for [BeautifulSoup(html, "html.parser")]. *)
Definition extract_article_entries (html_parser : str -> result node) (html : str)
  : list message * result (list entry) :=
  match html_parser html with
  | Raise e => ([], Raise e)
  | Ok soup => extract_from_soup soup
  end.

End Extractors.

(* ================================================================== *)
(** ** The world: network, clock, random numbers and the log *)
(* ================================================================== *)

(** What a run does to the outside, in order. *)
Inductive event :=
| Get (url : str)          (* a [requests.get] was issued *)
| Sleep (seconds : Q)      (* [time.sleep] *)
| Logged (m : message).    (* a record written through [logging] *)

Record world := {
  requests : nat;          (* requests issued so far *)
  draws : nat;             (* random numbers drawn so far *)
  trace : list event
}.

(** [VenueDetail], the dictionary [scrape_venue_info] returns. *)
Module Venue.
Record t := { phone : str; website : str; address : str }.
Definition empty : t := {| phone := []; website := []; address := [] |}.
End Venue.

(** [VenueRow], the dictionary [main] appends to [rows]. *)
Module CsvRow.
Record t := {
  name : str; description : str; address : str; phone : str; website : str;
  opening_hours : str; source_link : str
}.
End CsvRow.

(** [a[href^="tel:"]] *)
Definition sel_tel (n : node) : bool :=
  name_is (py "a") n &&
  match get (py "href") n with
  | Some v => startswith (py "tel:") v
  | None => false
  end.

(** [a[rel*="nofollow"]]: no token of a [rel] list contains a space, so the
    test on the joined tokens is the test on the attribute text. *)
Definition sel_nofollow (n : node) : bool :=
  name_is (py "a") n &&
  match get (py "rel") n with
  | Some v => contains (py "nofollow") v
  | None => false
  end.

(** [a[target="_blank"]] *)
Definition sel_blank (n : node) : bool :=
  name_is (py "a") n &&
  match get (py "target") n with
  | Some v => str_eqb v (py "_blank")
  | None => false
  end.

(** [\+44\s?\d[\d\s\-]{7,}\d|0\d{2,4}[\s\-]?\d{3,4}[\s\-]?\d{3,4}], in a group *)
Definition PHONE_RE : regex :=
  let sep := COr CSpace (CLit 45%N) in
  RGroup
    (RAlt
       (seqs [lit (py "+44"); opt CSpace; RChar CDigit;
              RRep (COr CDigit sep) 7 None true; RChar CDigit])
       (seqs [lit (py "0"); RRep CDigit 2 (Some 4%nat) true; opt sep;
              RRep CDigit 3 (Some 4%nat) true; opt sep;
              RRep CDigit 3 (Some 4%nat) true])).

(** [[A-Z]{1,2}\d{1,2}[A-Z]?\s*\d[A-Z]{2}], compiled with [re.IGNORECASE] *)
Definition POSTCODE_RE : regex :=
  let AZ := CRange 65%N 90%N in
  seqs [RRep AZ 1 (Some 2%nat) true; RRep CDigit 1 (Some 2%nat) true; opt AZ;
        star CSpace; RChar CDigit; RRep AZ 2 (Some 2%nat) true].

Section Effects.
Context {RT : Runtime}.

(** The environment of a run: the outcome of the [n]-th request
    ([requests.get], [raise_for_status] and [r.text] together), the [n]-th
    random draw as a fraction, and the HTML parser. *)
Variable http : nat -> str -> result str.
Variable entropy : nat -> N * positive.
Variable html_parser : str -> result node.

(** Effectful code reads and updates the world and may raise. *)
Definition M (A : Type) : Type := world -> result A * world.

Definition ret {A} (a : A) : M A := fun w => (Ok a, w).
Definition raise {A} (e : exc) : M A := fun w => (Raise e, w).
Definition bind {A B} (m : M A) (f : A -> M B) : M B :=
  fun w => match m w with
           | (Ok a, w') => f a w'
           | (Raise e, w') => (Raise e, w')
           end.

(** [try: body  except Exception as e: handler(e)] *)
Definition try_except {A} (body : M A) (handler : exc -> M A) : M A :=
  fun w => match body w with
           | (Ok a, w') => (Ok a, w')
           | (Raise e, w') => handler e w'
           end.

Declare Scope eff_scope.
Delimit Scope eff_scope with eff.
Notation "x <- m ;; k" := (bind m (fun x => k))
  (at level 61, m at next level, right associativity) : eff_scope.
Notation "m ;; k" := (bind m (fun _ => k))
  (at level 61, right associativity) : eff_scope.
Local Open Scope eff_scope.

Definition emit (ev : event) : M unit :=
  fun w => (Ok tt, {| requests := requests w; draws := draws w;
                      trace := trace w ++ [ev] |}).

Definition logging (m : message) : M unit := emit (Logged m).

(** Floating-point numbers are modelled by the rationals they denote. *)
Definition unit_fraction (p : N * positive) : Q :=
  Z.of_N (fst p mod Npos (snd p)) # snd p.

(** [random.random()], a number in [0, 1) *)
Definition random_random : M Q :=
  fun w => (Ok (unit_fraction (entropy (draws w))),
            {| requests := requests w; draws := S (draws w); trace := trace w |}).

(** [time.sleep(seconds)] raises [ValueError] on a negative argument. *)
Definition time_sleep (seconds : Q) : M unit :=
  if Qle_bool 0 seconds then emit (Sleep seconds)
  else raise (ValueError (py "sleep length must be non-negative")).

(** [requests.get(url, ...)] followed by [raise_for_status()] and [r.text] *)
Definition requests_get (url : str) : M str :=
  fun w => (http (requests w) url,
            {| requests := S (requests w); draws := draws w;
               trace := trace w ++ [Get url] |}).

(** [range(1, retries + 1)] *)
Definition attempts (retries : Z) : list Z :=
  map Z.of_nat (seq 1 (Z.to_nat retries)).

Definition raise_last (last_exc : option exc) : M str :=
  match last_exc with
  | Some e => raise e
  | None => raise (TypeError (py "exceptions must derive from BaseException"))
  end.

(** The [for] loop of [fetch] and the [raise last_exc] after it. *)
Fixpoint fetch_loop (url : str) (backoff : Q) (todo : list Z) (last_exc : option exc)
  : M str :=
  match todo with
  | [] => raise_last last_exc
  | attempt :: rest =>
      try_except (requests_get url)
        (fun e =>
           jitter <- random_random ;;
           let wait := (backoff ^ attempt + jitter)%Q in
           logging (FetchFailed attempt url e wait) ;;
           time_sleep wait ;;
           fetch_loop url backoff rest (Some e))
  end.

(** [fetch(url, retries, backoff)]; [timeout] only travels to the transport. *)
Definition fetch (url : str) (retries : Z) (backoff : Q) : M str :=
  fetch_loop url backoff (attempts retries) None.

(** The defaults [retries=3, backoff=1.4], used by every caller. *)
Definition fetch_default (url : str) : M str := fetch url 3 (7 # 5).

(** [soup.select_one(sel)]: the first match in document order. *)
Definition select_one (sel : node -> bool) (soup : node) : option node :=
  List.find sel (map here (descendants (soup_root soup))).

(** [a.external] *)
Definition sel_external (n : node) : bool :=
  name_is (py "a") n &&
  match get (py "class") n with
  | Some v => existsb (str_eqb (py "external")) (split_ws v)
  | None => false
  end.

(** Lines 262-265. *)
Definition detail_phone (soup : node) : str :=
  match select_one sel_tel soup with
  | Some tel =>
      if has_href tel
      then strip (replace (py "tel:") [] (get_or_empty (py "href") tel))
      else []
  | None => []
  end.

(** Lines 267-274: the first selector whose first match has an external,
    absolute href ends the loop. *)
Fixpoint detail_website (soup : node) (sels : list (node -> bool)) : str :=
  match sels with
  | [] => []
  | sel :: rest =>
      match select_one sel soup with
      | Some a =>
          if has_href a then
            let href := get_or_empty (py "href") a in
            if negb (contains (py "timeout.com") href) && startswith (py "http") href
            then href
            else detail_website soup rest
          else detail_website soup rest
      | None => detail_website soup rest
      end
  end.

(** Lines 276-286. *)
Definition detail_address (soup : node) : str :=
  match find (py "address") (soup_root soup) with
  | Some addr_tag => get_text [32%N] (here addr_tag)
  | None =>
      let text := get_text [32%N] soup in
      match re_search flag_I POSTCODE_RE text with
      | Some m =>
          let idx := m_start m in
          strip (slice (idx - 80) (Nat.min (List.length text) (idx + 80)) text)
      | None => []
      end
  end.

(** Lines 288-293. *)
Definition phone_fallback (soup : node) (phone : str) : str :=
  if negb (truthy phone) then
    let text := get_text [32%N] soup in
    match re_search no_flags PHONE_RE text with
    | Some m => strip (group0 text m)
    | None => phone
    end
  else phone.

(** Lines 262-293 on a parsed page: the updates made to [out]. *)
Definition fill_details (soup : node) (out : Venue.t) : Venue.t :=
  let phone :=
    match select_one sel_tel soup with
    | Some tel => if has_href tel then detail_phone soup else Venue.phone out
    | None => Venue.phone out
    end in
  let website :=
    match detail_website soup [sel_nofollow; sel_blank; sel_external] with
    | [] => Venue.website out
    | href => href
    end in
  let address :=
    match find (py "address") (soup_root soup) with
    | Some _ => detail_address soup
    | None =>
        match re_search flag_I POSTCODE_RE (get_text [32%N] soup) with
        | Some _ => detail_address soup
        | None => Venue.address out
        end
    end in
  {| Venue.phone := phone_fallback soup phone;
     Venue.website := website;
     Venue.address := address |}.

Definition lift {A} (r : result A) : M A := fun w => (r, w).

(** The body of the [try] of [scrape_venue_info]: nothing is written to
    [out] before the page has been fetched and parsed. *)
Definition scrape_body (url : str) (out : Venue.t) : M Venue.t :=
  html <- fetch_default url ;;
  soup <- lift (html_parser html) ;;
  ret (fill_details soup out).

Definition scrape_venue_info (url : str) : M Venue.t :=
  let out := Venue.empty in
  if negb (truthy url) then ret out
  else try_except (scrape_body url out)
                  (fun e => logging (ScrapeFailed url e) ;; ret out).

(** Lines 327-357 of [main]: the row of one entry. *)
Definition assemble_row (e : entry) : M CsvRow.t :=
  jitter <- random_random ;;
  time_sleep (1 + (2 - 1) * jitter)%Q ;;
  let phone : str := [] in
  let website : str := [] in
  let address := address e in
  pwa <- (if truthy (source_link e) then
            try_except
              (venue <- scrape_venue_info (source_link e) ;;
               ret (Venue.phone venue, Venue.website venue,
                    if negb (truthy address) then Venue.address venue else address))
              (fun ex => logging (ScrapeError (source_link e) ex) ;;
                         ret (phone, website, address))
          else ret (phone, website, address)) ;;
  let '(phone, website, address) := pwa in
  ret {| CsvRow.name := name e;
         CsvRow.description := description e;
         CsvRow.address := address;
         CsvRow.phone := phone;
         CsvRow.website := website;
         CsvRow.opening_hours := opening_hours e;
         CsvRow.source_link := source_link e |}.

Fixpoint assemble_rows (entries : list entry) : M (list CsvRow.t) :=
  match entries with
  | [] => ret []
  | e :: rest =>
      row <- assemble_row e ;;
      rows <- assemble_rows rest ;;
      ret (row :: rows)
  end.

Definition log_all (ms : list message) : M unit :=
  fold_right (fun m k => logging m ;; k) (ret tt) ms.

(** [main], up to the rows handed to the writers ([None] when the run ends
    before any row is assembled); printing and saving are left out. *)
Definition main : M (option (list CsvRow.t)) :=
  fetched <- try_except (html <- fetch_default URL ;; ret (Some html))
                        (fun e => logging (MainFetchFailed e) ;; ret None) ;;
  match fetched with
  | None => ret None
  | Some html =>
      let (logs, r) := extract_article_entries html_parser html in
      log_all logs ;;
      entries <- lift r ;;
      match entries with
      | [] => logging NoEntries ;; ret None
      | _ => rows <- assemble_rows entries ;; ret (Some rows)
      end
  end.

End Effects.

(* ================================================================== *)
(** ** Vocabulary of the statements *)
(* ================================================================== *)

Section Vocabulary.
Context {RT : Runtime}.
Local Open Scope result_scope.

(** The end offset of a leading match of [^\d+\.\s*], if the string has one. *)
Definition ordinal_prefix (s : str) : option nat :=
  advance_at no_flags ordinal_re 0 s.

(** A segment that the loop keeps: it holds the marker and resolves to a
    name and a description. *)
Definition valid_segment (seg : str) : bool :=
  contains marker seg && retained (parse_segment seg).

Definition valid_segments (text : str) : list str :=
  filter valid_segment (re_split no_flags split_re text).

(** The candidate a kept segment gives, link included. *)
Definition candidate_of (main_content : located) (seg : str) : result entry :=
  let e := parse_segment seg in
  let? link := find_link (name e) (link_elements main_content) in
  Ok (with_link e link).






(** The case-insensitive key of a candidate. *)
Definition name_key (e : entry) : str := lower (name e).

(** The name the fallback gives a heading. *)
Definition heading_name (h : located) : str := clean_name (get_text [32%N] (here h)).

End Vocabulary.

Section EffectVocabulary.
Variable entropy : nat -> N * positive.

(** The wait computed after the failure of attempt [k + 1] of a [fetch] that
    starts in world [w], and what that failed attempt leaves in the trace. *)
Definition wait_of (backoff : Q) (w : world) (k : nat) : Q :=
  (backoff ^ Z.of_nat (S k) + unit_fraction (entropy (draws w + k)))%Q.

Definition failed_attempt (url : str) (backoff : Q) (errs : nat -> exc) (w : world)
           (k : nat) : list event :=
  [Get url;
   Logged (FetchFailed (Z.of_nat (S k)) url (errs k) (wait_of backoff w k));
   Sleep (wait_of backoff w k)].

(** The world after the courtesy delay that precedes each enrichment. *)
Definition after_delay (w : world) : world :=
  {| requests := requests w; draws := S (draws w);
     trace := trace w ++ [Sleep (1 + (2 - 1) * unit_fraction (entropy (draws w)))%Q] |}.

End EffectVocabulary.

(* ================================================================== *)
(** ** Example inputs *)
(* ================================================================== *)

Definition document (body : list node) : node := Tag (py "[document]") [] body.
Definition elem (tag : string) (contents : list node) : node := Tag (py tag) [] contents.
Definition anchor (href : string) (text : string) : node :=
  Tag (py "a") [(py "href", py href)] [Text (py text)].
Definition br : node := Tag (py "br") [] [].

(** Scenario A of the specification, as a text stream. *)
Definition scenario_A : str :=
  join [10%N] (map py ["1. Bluebird Café"; "What is it?"; "A cosy nook.";
                       "Address: 12 High St"; "Opening hours: 9-5 daily"; ""]%string).

(** A page whose text stream is Scenario A (without the final newline, which
    [get_text] never produces). *)
Definition scenario_A_soup : node :=
  document [elem "body" [elem "p" [Text (py "1. Bluebird Café"); br;
                                   Text (py "What is it?"); br;
                                   Text (py "A cosy nook."); br;
                                   Text (py "Address: 12 High St"); br;
                                   Text (py "Opening hours: 9-5 daily")]]].

Definition scenario_A_entry (link : str) : entry :=
  {| name := py "A cosy nook."; description := py "A cosy nook.";
     address := py "12 High St"; opening_hours := py "9-5 daily";
     source_link := link |}.

Definition bluebird_paragraph : node :=
  elem "p" [Text (py "What is it?"); br; Text (py "Bluebird Cafe serves coffee every day.")].

(** One valid segment, and an anchor whose href names a malformed host. *)
Definition bad_href_soup : node :=
  document [elem "body" [bluebird_paragraph; anchor "//[" "Bluebird Cafe"]].


(** The same segment with a site-relative venue link. *)
Definition relative_link_soup : node :=
  document [elem "body" [bluebird_paragraph;
                         anchor "/london/venue/bluebird" "Bluebird Cafe"]].

Definition two_segments : str :=
  join [10%N] (map py ["What is it?"; "Alpha Beans roastery."; "What is it?";
                       "Beta Brew bar."]%string).

Definition empty_body : located := soup_root (elem "body" []).

Definition gallery_text : node :=
  elem "p" [Text (py "A bright room with plants, good coffee and cake all day. Address: 5 Park Rd")].


Definition gallery_soup : node :=
  document [elem "body" [elem "h2" [Text (py "The Gallery Café")]; gallery_text]].

(** Two headings that differ only in case and ordinal. *)
Definition duplicate_headings_soup : node :=
  document [elem "body" [elem "h2" [Text (py "The Gallery Café")]; gallery_text;
                         elem "h3" [Text (py "2. THE GALLERY CAFÉ")]; gallery_text]].

(** A one-word heading before a two-word one. *)
Definition single_word_soup : node :=
  document [elem "body" [elem "h2" [Text (py "Monmouth")]; gallery_text;
                         elem "h2" [Text (py "Gallery Café")]; gallery_text]].

Definition bluebird_entry (link : string) : entry :=
  {| name := py "Bluebird Cafe serves coffee every day.";
     description := py "Bluebird Cafe serves coffee every day.";
     address := []; opening_hours := []; source_link := py link |}.

Definition gallery_entry (nm : string) : entry :=
  {| name := py nm;
     description := py "A bright room with plants, good coffee and cake all day. Address: 5 Park Rd";
     address := py "5 Park Rd"; opening_hours := []; source_link := [] |}.

Definition plain_entry (nm : string) : entry :=
  {| name := py nm; description := py nm; address := []; opening_hours := [];
     source_link := [] |}.


Definition offline (n : nat) (url : str) : result str := Raise (RequestException 503%N).
Definition no_jitter (n : nat) : N * positive := (0%N, 1%positive).
Definition no_parser (html : str) : result node := Raise (ParserError 0%N).
Definition start : world := {| requests := 0; draws := 0; trace := [] |}.
Definition venue_url : str := py "https://www.timeout.com/london/venue/bluebird".
Definition bluebird_with_address : entry :=
  {| name := py "Bluebird Café"; description := py "A cosy nook.";
     address := py "12 High St"; opening_hours := py "9-5 daily";
     source_link := venue_url |}.


(** Scenario D of the specification: a page with a [tel:] link only. *)
Definition scenario_D_soup : node :=
  document [elem "body" [Tag (py "a") [(py "href", py "tel:+442071234567")]
                             [Text (py "Call")]]].

(** A page with a phone number and a postcode in its text. *)
Definition phone_text_soup : node :=
  document [elem "body"
              [elem "p" [Text (py "Ring 020 7123 4567 or visit 12 High St, London E8 3DL today")]]].

(* ================================================================== *)
(** ** Vocabulary of the further properties *)
(* ================================================================== *)

Section FurtherVocabulary.
Context {RT : Runtime}.

(** The entry the fallback builds for a heading (lines 184-241). *)
Definition heading_entry (h : located) (link : str) : entry :=
  let full_text := join [32%N] (collect_siblings (siblings h) []) in
  {| name := heading_name h;
     description := heading_description full_text;
     address := heading_address full_text;
     opening_hours := heading_hours full_text;
     source_link := link |}.

(** A candidate as the data model wants it. *)
Definition well_formed (e : entry) : Prop :=
  name e <> [] /\ description e <> [] /\
  strip (name e) = name e /\ List.length (name e) <= 100.


(** A heading the fallback extractor keeps: not generic, and its link
    resolves to [link]. *)
Definition from_heading (headings : list located) (e : entry) : Prop :=
  exists h link,
    In h headings /\
    existsb (fun x => contains x (lower (get_text [32%N] (here h)))) generic_tokens = false /\
    heading_link h = Ok link /\
    e = heading_entry h link.

End FurtherVocabulary.

(** The row [main] builds from a candidate and the detail of its page. *)
Definition row_of (e : entry) (venue : Venue.t) : CsvRow.t :=
  {| CsvRow.name := name e;
     CsvRow.description := description e;
     CsvRow.address := if negb (truthy (address e)) then Venue.address venue else address e;
     CsvRow.phone := Venue.phone venue;
     CsvRow.website := Venue.website venue;
     CsvRow.opening_hours := opening_hours e;
     CsvRow.source_link := source_link e |}.

(** The world with these records appended to its trace. *)
Definition logged (w : world) (ms : list message) : world :=
  {| requests := requests w; draws := draws w; trace := trace w ++ map Logged ms |}.

(** What every row keeps of its candidate. *)
Definition carries (e : entry) (row : CsvRow.t) : Prop :=
  CsvRow.name row = name e /\ CsvRow.description row = description e /\
  CsvRow.opening_hours row = opening_hours e /\ CsvRow.source_link row = source_link e /\
  (address e <> [] -> CsvRow.address row = address e).

(* ================================================================== *)
(** ** Further example inputs *)
(* ================================================================== *)

(** A server that fails twice and then answers every request with [page]. *)
Definition flaky (page : str) (n : nat) (url : str) : result str :=
  if n <? 2 then Raise (RequestException 503%N) else Ok page.
(** A server that answers every request with [page]. *)
Definition online (page : str) (n : nat) (url : str) : result str := Ok page.
(** A parser that reads every page as [soup]. *)
Definition parsed_as (soup : node) (html : str) : result node := Ok soup.
Definition some_page : str := py "<html></html>".
Definition name_line : str := py "1. Bluebird Cafe" ++ [10%N].
Definition marked_text : str := py "What is it? A cosy nook with good coffee.".

(* ================================================================== *)
(** ** The models on examples

    Each value below is what CPython 3.11 returns for the same call. *)
(* ================================================================== *)

Example urljoin_site_relative :
  Url.urljoin URL (py "/london/venue/x") = Ok (py "https://www.timeout.com/london/venue/x").
Proof. vm_compute. reflexivity. Qed.

Example urljoin_path_relative :
  Url.urljoin URL (py "../a;b?q#f") = Ok (py "https://www.timeout.com/london/a;b?q#f").
Proof. vm_compute. reflexivity. Qed.

Example urljoin_protocol_relative :
  Url.urljoin URL (py "//cdn.example.com/x") = Ok (py "https://cdn.example.com/x").
Proof. vm_compute. reflexivity. Qed.

Example urljoin_other_scheme :
  Url.urljoin URL (py "mailto:a@b") = Ok (py "mailto:a@b").
Proof. vm_compute. reflexivity. Qed.

Example urljoin_unmatched_bracket :
  Url.urljoin URL (py "//[") = Raise Url.invalid_ipv6.
Proof. vm_compute. reflexivity. Qed.

Example re_split_keeps_leading_piece :
  re_split no_flags split_re (py "What is it? a What is it? b")
  = [[]; py "What is it? a "; py "What is it? b"].
Proof. vm_compute. reflexivity. Qed.

Example search_is_lazy_and_ignores_case :
  searched flag_SI what_re (py "what is it?  Good coffee. address: 1 Elm St")
  = Some (py "Good coffee.").
Proof. vm_compute. reflexivity. Qed.

Example split_ws_drops_runs :
  split_ws (py "  The   Gallery Café ") = [py "The"; py "Gallery"; py "Café"].
Proof. vm_compute. reflexivity. Qed.

Example scenario_D :
  fill_details scenario_D_soup Venue.empty
  = {| Venue.phone := py "+442071234567"; Venue.website := []; Venue.address := [] |}.
Proof. vm_compute. reflexivity. Qed.

Example phone_and_postcode_from_text :
  fill_details phone_text_soup Venue.empty
  = {| Venue.phone := py "020 7123 4567"; Venue.website := [];
       Venue.address := py "Ring 020 7123 4567 or visit 12 High St, London E8 3DL today" |}.
Proof. vm_compute. reflexivity. Qed.

(* ================================================================== *)
(** ** Facts about the matcher *)
(* ================================================================== *)

Section EngineFacts.
Context {RT : Runtime}.
Variable fl : flags.

(** A successful repetition hands its continuation a later offset. *)
Lemma rep_inv (R : Type) c greedy (k : nat -> str -> option R) s :
  forall lo hi i x,
    rep fl c greedy k lo hi i s = Some x ->
    exists j s', k j s' = Some x /\ i + lo <= j /\ j + List.length s' = i + List.length s.
Proof.
  induction s as [|ch s IH]; intros lo hi i x H; simpl in H.
  - destruct lo; [|destruct greedy; discriminate].
    exists i, []. split; [|simpl; lia].
    destruct greedy; [exact H|].
    destruct (k i []); [exact H | discriminate].
  - assert (Hmore : forall y,
        (if may_repeat hi && cmatch fl c ch
         then rep fl c greedy k (pred lo) (option_map pred hi) (S i) s else None) = Some y ->
        exists j s', k j s' = Some y /\ i + lo <= j /\
                     j + List.length s' = i + List.length (ch :: s)).
    { intros y Hy. destruct (may_repeat hi && cmatch fl c ch); [|discriminate].
      destruct (IH _ _ _ _ Hy) as (j & s' & Hk & Hlo & Hlen).
      exists j, s'. split; [exact Hk|]. simpl. lia. }
    assert (Hstop : forall y,
        match lo with O => k i (ch :: s) | S _ => None end = Some y ->
        exists j s', k j s' = Some y /\ i + lo <= j /\
                     j + List.length s' = i + List.length (ch :: s)).
    { intros y Hy. destruct lo; [|discriminate].
      exists i, (ch :: s). split; [exact Hy|]. lia. }
    destruct greedy.
    + destruct (if may_repeat hi && cmatch fl c ch
                then rep fl c true k (pred lo) (option_map pred hi) (S i) s else None)
        eqn:E.
      * inversion H; subst. apply Hmore. reflexivity.
      * apply Hstop. exact H.
    + destruct (match lo with O => k i (ch :: s) | S _ => None end) eqn:E.
      * inversion H; subst. apply Hstop. reflexivity.
      * apply Hmore. exact H.
Qed.

(** A successful match hands its continuation an offset within the subject. *)
Lemma rmatch_inv r :
  forall (R : Type) i s g (k : nat -> str -> cap -> option R) x,
    rmatch fl r i s g k = Some x ->
    exists j s' g', k j s' g' = Some x /\ i <= j /\
                    j + List.length s' = i + List.length s.
Proof.
  induction r; intros R i s g k x H; simpl in H.
  - exists i, s, g. auto.
  - destruct s as [|ch s]; [discriminate|].
    destruct (cmatch fl c ch); [|discriminate].
    exists (S i), s, g. simpl. repeat split; [exact H | lia | lia].
  - apply IHr1 in H. destruct H as (j1 & s1 & g1 & H & Hle & Hlen).
    apply IHr2 in H. destruct H as (j & s' & g' & H & Hle' & Hlen').
    exists j, s', g'. repeat split; [exact H | lia | lia].
  - destruct (rmatch fl r1 i s g k) eqn:E.
    + inversion H; subst. apply IHr1 in E. exact E.
    + apply IHr2 in H. exact H.
  - apply rep_inv in H. destruct H as (j & s' & H & Hle & Hlen).
    exists j, s', g. repeat split; [exact H | lia | lia].
  - apply IHr in H. destruct H as (j & s' & g' & H & Hle & Hlen).
    exists j, s', (Some (i, j)). auto.
  - destruct (rmatch fl r i s g (fun _ _ g' => Some g')) eqn:E; [|discriminate].
    exists i, s, c. auto.
  - destruct (Nat.eqb i 0); [|discriminate]. exists i, s, g. auto.
  - destruct s as [|ch [|ch' s]].
    + exists i, [], g. auto.
    + destruct (ch =? 10)%N; [|discriminate]. exists i, [ch], g. auto.
    + discriminate.
Qed.

(** A literal matches exactly where the subject starts with it. *)
Lemma rmatch_lit_exact (H : IGNORECASE fl = false) m :
  forall (R : Type) i s g (k : nat -> str -> cap -> option R),
    rmatch fl (lit m) i s g k =
    if startswith m s then k (i + List.length m) (skipn (List.length m) s) g else None.
Proof.
  induction m as [|c m IH]; intros R i s g k; simpl.
  - rewrite Nat.add_0_r. reflexivity.
  - destruct s as [|ch s]; [reflexivity|].
    rewrite H. destruct (c =? ch)%N; simpl; [|reflexivity].
    rewrite IH. replace (S i + List.length m) with (i + S (List.length m)) by lia.
    reflexivity.
Qed.

End EngineFacts.

(* ================================================================== *)
(** ** Ordinal prefixes *)
(* ================================================================== *)

Section OrdinalFacts.
Context {RT : Runtime}.

(** An advancing match is non-empty and stays within the subject. *)
Lemma advance_at_inv fl r i s j :
  advance_at fl r i s = Some j -> i < j /\ j <= i + List.length s.
Proof.
  unfold advance_at. intros H. apply rmatch_inv in H.
  destruct H as (j' & s' & g' & H & Hle & Hlen).
  destruct (Nat.eqb j' i) eqn:E; [discriminate|].
  inversion H; subst. apply Nat.eqb_neq in E. lia.
Qed.

Lemma ordinal_only_at_start i s : 1 <= i -> advance_at no_flags ordinal_re i s = None.
Proof.
  intros Hi. unfold advance_at, ordinal_re.
  cbn [rmatch]. destruct i; [lia|]. reflexivity.
Qed.

Lemma sub_go_ordinal_rest s :
  forall i n, 1 <= i -> sub_go no_flags ordinal_re s i n = skipn n s.
Proof.
  induction s as [|a s IH]; intros i n Hi.
  - destruct n; reflexivity.
  - destruct n; cbn [sub_go skipn].
    + rewrite ordinal_only_at_start by exact Hi.
      rewrite IH by lia. reflexivity.
    + apply IH. lia.
Qed.

(** The substitution deletes the leading match and nothing else. *)
Lemma strip_ordinal_spec s :
  strip_ordinal s =
  match ordinal_prefix s with
  | Some j => skipn j s
  | None => s
  end.
Proof.
  unfold strip_ordinal, re_sub_empty, ordinal_prefix.
  destruct s as [|a s].
  - destruct (advance_at no_flags ordinal_re 0 []) eqn:E; [|reflexivity].
    apply advance_at_inv in E. simpl in E. lia.
  - cbn [sub_go].
    destruct (advance_at no_flags ordinal_re 0 (a :: s)) eqn:E.
    + apply advance_at_inv in E. destruct n as [|n]; [lia|].
      rewrite sub_go_ordinal_rest by lia.
      replace (S n - 0 - 1) with n by lia. reflexivity.
    + rewrite sub_go_ordinal_rest by lia. reflexivity.
Qed.

Lemma ordinal_prefix_needs_digit c t :
  isdecimal c = false -> ordinal_prefix (c :: t) = None.
Proof.
  intros H. unfold ordinal_prefix, advance_at, ordinal_re, plus.
  cbn [rmatch Nat.eqb rep]. cbn [cmatch may_repeat andb]. rewrite H. reflexivity.
Qed.

(** C5 (amended).  [re.sub(r'^\d+\.\s*', '', s)] removes one leading ordinal
    prefix.  A string without such a prefix is left unchanged, and stripping
    twice equals stripping once exactly when the stripped string does not
    itself begin with an ordinal prefix; in particular when it does not begin
    with a decimal digit. *)
Theorem strip_ordinal_idempotent_when_single_prefix (s : str) :
  (ordinal_prefix s = None -> strip_ordinal s = s) /\
  (strip_ordinal (strip_ordinal s) = strip_ordinal s <->
   ordinal_prefix (strip_ordinal s) = None) /\
  (forall c t, strip_ordinal s = c :: t -> isdecimal c = false ->
               strip_ordinal (strip_ordinal s) = strip_ordinal s).
Proof.
  assert (Hfix : forall t, ordinal_prefix t = None -> strip_ordinal t = t).
  { intros t Ht. rewrite strip_ordinal_spec, Ht. reflexivity. }
  split; [apply Hfix|]. split.
  - split; [|apply Hfix].
    intros Hid. set (t := strip_ordinal s) in *.
    rewrite strip_ordinal_spec in Hid.
    destruct (ordinal_prefix t) as [j|] eqn:E; [|reflexivity].
    unfold ordinal_prefix in E. apply advance_at_inv in E.
    apply (f_equal (@List.length char)) in Hid.
    rewrite length_skipn in Hid. lia.
  - intros c t Hs Hc. apply Hfix. rewrite Hs.
    apply ordinal_prefix_needs_digit. exact Hc.
Qed.

End OrdinalFacts.

(** C5, counterexample: "1.2. Cafe" strips to "2. Cafe", which strips to
    "Cafe". *)
Lemma strip_ordinal_not_idempotent :
  strip_ordinal (py "1.2. Cafe") = py "2. Cafe" /\
  strip_ordinal (strip_ordinal (py "1.2. Cafe")) = py "Cafe" /\
  strip_ordinal (strip_ordinal (py "1.2. Cafe")) <> strip_ordinal (py "1.2. Cafe").
Proof.
  repeat split; try (vm_compute; reflexivity).
  vm_compute. discriminate.
Qed.

(* ================================================================== *)
(** ** The primary pass *)
(* ================================================================== *)

Section PrimaryFacts.
Context {RT : Runtime}.

Lemma rmatch_look_lit fl (H : IGNORECASE fl = false) m (R : Type) i s g
      (k : nat -> str -> cap -> option R) :
  rmatch fl (RLook (lit m)) i s g k = if startswith m s then k i s g else None.
Proof.
  cbn [rmatch]. rewrite rmatch_lit_exact by exact H.
  destruct (startswith m s); reflexivity.
Qed.




(** The loop appends the candidates of the valid segments until it is full. *)
Lemma segment_loop_spec mc segs :
  forall entries cands,
    List.length entries < MAX_ITEMS ->
    map (candidate_of mc)
        (firstn (MAX_ITEMS - List.length entries) (filter valid_segment segs))
    = map Ok cands ->
    segment_loop mc segs entries = Ok (entries ++ cands).
Proof.
  induction segs as [|seg rest IH]; intros entries cands Hlen Hc.
  - simpl in Hc. rewrite firstn_nil in Hc. destruct cands; [|discriminate].
    rewrite app_nil_r. reflexivity.
  - cbn [segment_loop]. cbn [filter] in Hc. unfold valid_segment at 1 in Hc.
    destruct (contains marker seg); cbn [negb andb] in *; [|apply IH; assumption].
    destruct (retained (parse_segment seg)) eqn:Hr; [|apply IH; assumption].
    destruct (MAX_ITEMS - List.length entries) as [|n] eqn:Hn; [lia|].
    cbn [firstn map] in Hc. destruct cands as [|c cands]; [discriminate|].
    cbn [map] in Hc. injection Hc as Hc1 Hc2.
    unfold candidate_of in Hc1.
    destruct (find_link (name (parse_segment seg)) (link_elements mc)) as [link|e];
      [|discriminate].
    cbn [rbind] in *. injection Hc1 as <-.
    rewrite length_app. cbn [List.length].
    destruct (MAX_ITEMS <=? List.length entries + 1) eqn:Hfull.
    + apply Nat.leb_le in Hfull. assert (n = 0) by lia. subst n.
      destruct cands; [reflexivity|discriminate].
    + apply Nat.leb_gt in Hfull.
      rewrite (IH (entries ++ [with_link (parse_segment seg) link]) cands).
      * rewrite <- app_assoc. reflexivity.
      * rewrite length_app. simpl. lia.
      * rewrite length_app. cbn [List.length].
        replace (MAX_ITEMS - (List.length entries + 1)) with n by lia. exact Hc2.
Qed.

Lemma segment_loop_bound mc segs :
  forall entries l,
    List.length entries < MAX_ITEMS ->
    segment_loop mc segs entries = Ok l -> List.length l <= MAX_ITEMS.
Proof.
  induction segs as [|seg rest IH]; intros entries l Hlen H; cbn [segment_loop] in H.
  - injection H as <-. lia.
  - destruct (negb (contains marker seg)); [eapply IH; eassumption|].
    destruct (retained (parse_segment seg)); [|eapply IH; eassumption].
    destruct (find_link (name (parse_segment seg)) (link_elements mc)) as [link|e];
      cbn [rbind] in H; [|discriminate].
    destruct (MAX_ITEMS <=? _) eqn:Hfull.
    + injection H as <-. rewrite length_app. simpl. lia.
    + apply Nat.leb_gt in Hfull. eapply IH; [|exact H]. exact Hfull.
Qed.

End PrimaryFacts.

(* ================================================================== *)
(** ** URL resolution *)
(* ================================================================== *)

Section UrlFacts.
Context {RT : Runtime}.

Lemma str_eqb_eq a b : str_eqb a b = true <-> a = b.
Proof.
  unfold str_eqb. destruct (list_eq_dec N.eq_dec a b); split; congruence.
Qed.

Lemma truthy_false s : truthy s = false -> s = [].
Proof. destruct s; [reflexivity|discriminate]. Qed.






End UrlFacts.

(* ================================================================== *)
(** ** The two loops *)
(* ================================================================== *)

Section LoopFacts.
Context {RT : Runtime}.






(** The shape of the loop over the headings: every accepted heading adds its
    key to [seen] and at most one entry, whose name has a fresh key and at
    least two words. *)
Lemma heading_loop_inv (P : list entry -> list str -> Prop) :
  (forall entries seen key, P entries seen -> P entries (key :: seen)) ->
  (forall entries seen h e,
      P entries seen ->
      name e = heading_name h ->
      ~ In (name_key e) seen ->
      2 <= List.length (split_ws (name e)) ->
      heading_link h = Ok (source_link e) ->
      description e <> [] ->
      P (entries ++ [e]) (name_key e :: seen)) ->
  forall hs entries seen l,
    P entries seen -> heading_loop hs entries seen = Ok l -> exists seen', P l seen'.
Proof.
  intros Hseen Hadd.
  induction hs as [|h rest IH]; intros entries seen l HP H; cbn [heading_loop] in H.
  - injection H as <-. exists seen. exact HP.
  - destruct (_ || _); [eapply IH; eassumption|].
    destruct (existsb _ generic_tokens); [eapply IH; eassumption|].
    fold (heading_name h) in H.
    destruct (existsb (str_eqb (lower (heading_name h))) seen) eqn:Hdup;
      [eapply IH; eassumption|].
    destruct (List.length (split_ws (heading_name h)) <? 2) eqn:Hwords;
      cbn [orb] in H; [eapply IH; eassumption|].
    apply Nat.ltb_ge in Hwords.
    destruct (heading_link h) as [link|e] eqn:Hl; cbn [rbind] in H; [|discriminate].
    set (full := join [32%N] (collect_siblings (siblings h) [])) in *.
    assert (Hfresh : ~ In (lower (heading_name h)) seen).
    { intros Hin. apply Bool.not_true_iff_false in Hdup. apply Hdup.
      apply existsb_exists. exists (lower (heading_name h)). split; [exact Hin|].
      apply str_eqb_eq. reflexivity. }
    destruct (truthy (heading_description full)) eqn:Hd.
    + match type of H with
      | context [entries ++ [?e]] => set (e0 := e) in *
      end.
      assert (HP' : P (entries ++ [e0]) (lower (heading_name h) :: seen)).
      { apply (Hadd entries seen h e0); try assumption; try reflexivity.
        cbn [e0 description]. destruct (heading_description full); [discriminate|congruence]. }
      destruct (MAX_ITEMS <=? _).
      * injection H as <-. eexists. exact HP'.
      * eapply IH; eassumption.
    + assert (HP' : P entries (lower (heading_name h) :: seen)) by (apply Hseen; exact HP).
      destruct (MAX_ITEMS <=? _).
      * injection H as <-. eexists. exact HP'.
      * eapply IH; eassumption.
Qed.

Lemma heading_loop_bound hs :
  forall entries seen l,
    List.length entries < MAX_ITEMS ->
    heading_loop hs entries seen = Ok l -> List.length l <= MAX_ITEMS.
Proof.
  induction hs as [|h rest IH]; intros entries seen l Hlen H; cbn [heading_loop] in H.
  - injection H as <-. lia.
  - destruct (_ || _); [eapply IH; eassumption|].
    destruct (existsb _ generic_tokens); [eapply IH; eassumption|].
    destruct (_ || _); [eapply IH; eassumption|].
    destruct (heading_link h) as [link|e]; cbn [rbind] in H; [|discriminate].
    destruct (truthy _).
    + destruct (MAX_ITEMS <=? _) eqn:Hfull.
      * injection H as <-. rewrite length_app. simpl. lia.
      * apply Nat.leb_gt in Hfull. eapply IH; eassumption.
    + destruct (MAX_ITEMS <=? _) eqn:Hfull.
      * injection H as <-. lia.
      * eapply IH; eassumption.
Qed.

Lemma heading_loop_skips_seen h rest entries seen :
  In (lower (heading_name h)) seen ->
  heading_loop (h :: rest) entries seen = heading_loop rest entries seen.
Proof.
  intros Hin. cbn [heading_loop].
  destruct (_ || _); [reflexivity|].
  destruct (existsb _ generic_tokens); [reflexivity|].
  fold (heading_name h).
  assert (Hdup : existsb (str_eqb (lower (heading_name h))) seen = true).
  { apply existsb_exists. exists (lower (heading_name h)). split; [exact Hin|].
    apply str_eqb_eq. reflexivity. }
  rewrite Hdup. reflexivity.
Qed.

Lemma heading_loop_skips_single_word h rest entries seen :
  List.length (split_ws (heading_name h)) < 2 ->
  heading_loop (h :: rest) entries seen = heading_loop rest entries seen.
Proof.
  intros Hw. cbn [heading_loop].
  destruct (_ || _); [reflexivity|].
  destruct (existsb _ generic_tokens); [reflexivity|].
  fold (heading_name h).
  apply Nat.ltb_lt in Hw. rewrite Hw, orb_true_r. reflexivity.
Qed.

End LoopFacts.

(* ================================================================== *)
(** ** Effects *)
(* ================================================================== *)

Section EffectFacts.
Context {RT : Runtime}.
Variable http : nat -> str -> result str.
Variable entropy : nat -> N * positive.
Variable html_parser : str -> result node.

Lemma flat_map_map (A B C : Type) (f : B -> list C) (g : A -> B) l :
  flat_map f (map g l) = flat_map (fun x => f (g x)) l.
Proof.
  induction l as [|x l IH]; [reflexivity|]. cbn [map flat_map]. rewrite IH. reflexivity.
Qed.

Lemma unit_fraction_range p : (0 <= unit_fraction p /\ unit_fraction p < 1)%Q.
Proof.
  unfold unit_fraction, Qle, Qlt. cbn [Qnum Qden].
  destruct p as [n d]. cbn [fst snd].
  assert (H := N.mod_lt n (Npos d) ltac:(discriminate)).
  set (m := (n mod Npos d)%N) in *. clearbody m. lia.
Qed.

Lemma time_sleep_ok q w :
  (0 <= q)%Q ->
  time_sleep q w = (Ok tt, {| requests := requests w; draws := draws w;
                              trace := trace w ++ [Sleep q] |}).
Proof.
  intros H. unfold time_sleep. apply Qle_bool_iff in H. rewrite H. reflexivity.
Qed.

Lemma wait_nonneg backoff attempt p :
  (0 <= backoff)%Q -> (0 <= backoff ^ attempt + unit_fraction p)%Q.
Proof.
  intros H. pose proof (Qpower_0_le backoff attempt H).
  pose proof (unit_fraction_range p). lra.
Qed.

Lemma fetch_loop_step_ok url backoff attempt rest last w text :
  http (requests w) url = Ok text ->
  fetch_loop http entropy url backoff (attempt :: rest) last w =
  (Ok text, {| requests := S (requests w); draws := draws w;
               trace := trace w ++ [Get url] |}).
Proof.
  intros H. cbn [fetch_loop]. unfold try_except, requests_get. rewrite H. reflexivity.
Qed.

Lemma fetch_loop_step_fail url backoff attempt rest last w e :
  (0 <= backoff)%Q ->
  http (requests w) url = Raise e ->
  fetch_loop http entropy url backoff (attempt :: rest) last w =
  fetch_loop http entropy url backoff rest (Some e)
    {| requests := S (requests w); draws := S (draws w);
       trace := trace w ++
                [Get url;
                 Logged (FetchFailed attempt url e
                           (backoff ^ attempt + unit_fraction (entropy (draws w))));
                 Sleep (backoff ^ attempt + unit_fraction (entropy (draws w)))%Q] |}.
Proof.
  intros Hb H. cbn [fetch_loop]. unfold try_except at 1, requests_get. rewrite H.
  unfold bind, random_random, logging, emit.
  cbn [requests draws trace].
  rewrite time_sleep_ok by (apply wait_nonneg; exact Hb).
  cbn [requests draws trace].
  repeat rewrite <- app_assoc. reflexivity.
Qed.

(** The trace and the outcome of a run of attempts that all fail. *)
Lemma fetch_loop_all_fail url backoff (Hb : (0 <= backoff)%Q) n :
  forall a last w errs,
    (forall k, k < n -> http (requests w + k) url = Raise (errs k)) ->
    exists w',
      fetch_loop http entropy url backoff (map Z.of_nat (seq (S a) n)) last w =
      (Raise (match n with
              | O => match last with
                     | Some e => e
                     | None => TypeError (py "exceptions must derive from BaseException")
                     end
              | S m => errs m
              end), w') /\
      requests w' = requests w + n /\
      draws w' = draws w + n /\
      trace w' = trace w ++
                 flat_map (fun k =>
                   [Get url;
                    Logged (FetchFailed (Z.of_nat (S (a + k))) url (errs k)
                              (backoff ^ Z.of_nat (S (a + k))
                               + unit_fraction (entropy (draws w + k))));
                    Sleep (backoff ^ Z.of_nat (S (a + k))
                           + unit_fraction (entropy (draws w + k)))%Q]) (seq 0 n).
Proof.
  induction n as [|n IH]; intros a last w errs H.
  - exists w. cbn [seq map fetch_loop flat_map]. rewrite app_nil_r, !Nat.add_0_r.
    split; [|auto]. destruct last; reflexivity.
  - cbn [seq map].
    rewrite (fetch_loop_step_fail _ _ _ _ Hb (e := errs 0)).
    2:{ rewrite <- (H 0) by lia. rewrite Nat.add_0_r. reflexivity. }
    set (w1 := {| requests := S (requests w) |}).
    destruct (IH (S a) (Some (errs 0)) w1 (fun k => errs (S k))) as (w' & Hrun & Hr & Hd & Ht).
    { intros k Hk. cbn [w1 requests]. rewrite <- (H (S k)) by lia.
      f_equal. lia. }
    exists w'. split; [|split; [|split]].
    + rewrite Hrun. destruct n; reflexivity.
    + rewrite Hr. cbn [w1 requests]. lia.
    + rewrite Hd. cbn [w1 draws]. lia.
    + rewrite Ht. cbn [w1 trace draws]. rewrite <- app_assoc. f_equal.
      cbn [flat_map]. rewrite !Nat.add_0_r.
      change (?x :: ?y :: ?z :: ?l) with ([x; y; z] ++ l). f_equal.
      rewrite <- seq_shift, flat_map_map.
      apply flat_map_ext. intros k.
      replace (S a + k) with (a + S k) by lia.
      replace (S (draws w) + k) with (draws w + S k) by lia. reflexivity.
Qed.

(** If the loop raises, every attempt it made had failed. *)
Lemma fetch_loop_raise_inv url backoff (Hb : (0 <= backoff)%Q) todo :
  forall last w e w',
    fetch_loop http entropy url backoff todo last w = (Raise e, w') ->
    forall k, k < List.length todo -> exists e', http (requests w + k) url = Raise e'.
Proof.
  induction todo as [|attempt rest IH]; intros last w e w' H k Hk.
  - simpl in Hk. lia.
  - destruct (http (requests w) url) as [text|e0] eqn:E.
    + rewrite (@fetch_loop_step_ok url backoff attempt rest last w text E) in H.
      discriminate.
    + rewrite (@fetch_loop_step_fail url backoff attempt rest last w e0 Hb E) in H.
      destruct k as [|k].
      * rewrite Nat.add_0_r. eauto.
      * specialize (IH _ _ _ _ H k ltac:(simpl in Hk; lia)).
        cbn [requests] in IH. replace (requests w + S k) with (S (requests w) + k) by lia.
        exact IH.
Qed.

(** The enricher catches whatever its body raises. *)
Lemma scrape_venue_info_total url w :
  exists out w', scrape_venue_info http entropy html_parser url w = (Ok out, w').
Proof.
  unfold scrape_venue_info. destruct (truthy url); cbn [negb].
  - unfold try_except.
    destruct (scrape_body http entropy html_parser url Venue.empty w) as [[out|e] w1].
    + eauto.
    + unfold bind, logging, emit, ret. eauto.
  - unfold ret. eauto.
Qed.

End EffectFacts.

(* ================================================================== *)
(** ** The claims about the extractors *)
(* ================================================================== *)

(** C1 (Scenario A).  On the text stream of Scenario A the primary pass
    returns exactly one candidate, with the description, address and opening
    hours the specification gives, but its name is "A cosy nook.", not
    "Bluebird Café": the split puts the line before the marker into the
    preceding segment, so the name scan starts at the marker line and takes
    the first line of the description.  The same happens on a page whose
    text stream is Scenario A. *)
Theorem scenario_A_name_is_description_line :
  (forall mc,
      primary_pass mc scenario_A =
      rbind (find_link (py "A cosy nook.") (link_elements mc))
            (fun link => Ok [scenario_A_entry link])) /\
  extract_from_soup scenario_A_soup = ([], Ok [scenario_A_entry []]) /\
  name (scenario_A_entry []) <> py "Bluebird Café".
Proof.
  split; [|split].
  - intros mc. unfold primary_pass.
    let v := eval vm_compute in (re_split no_flags split_re scenario_A) in
    replace (re_split no_flags split_re scenario_A) with v by (vm_compute; reflexivity).
    cbn [segment_loop].
    repeat match goal with
    | |- context [contains marker ?s] =>
        let b := eval vm_compute in (contains marker s) in
        replace (contains marker s) with b by (vm_compute; reflexivity)
    end.
    cbn [negb].
    match goal with
    | |- context [parse_segment ?s] =>
        let b := eval vm_compute in (parse_segment s) in
        replace (parse_segment s) with b by (vm_compute; reflexivity)
    end.
    reflexivity.
  - vm_compute. reflexivity.
  - vm_compute. discriminate.
Qed.

Section ExtractorClaims.
Context {RT : Runtime}.

Lemma Ok_inj (A : Type) (a b : A) : Ok a = Ok b -> a = b.
Proof. congruence. Qed.

Lemma firstn_In (A : Type) (x : A) n :
  forall l, In x (firstn n l) -> In x l.
Proof.
  induction n as [|n IH]; intros [|a l] H; try destruct H.
  - left. assumption.
  - right. apply IH. assumption.
Qed.

Lemma candidates_retained mc segs :
  forall cands,
    map (candidate_of mc) segs = map Ok cands ->
    Forall (fun seg => valid_segment seg = true) segs ->
    Forall (fun e => name e <> [] /\ description e <> []) cands.
Proof.
  induction segs as [|seg rest IH]; intros cands H Hv.
  - destruct cands; [constructor|discriminate].
  - destruct cands as [|c cands]; [discriminate|].
    cbn [map] in H. injection H as Hc Hrest.
    inversion Hv as [|? ? Hseg Hv']; subst.
    constructor; [|apply IH; assumption].
    unfold candidate_of in Hc.
    destruct (find_link _ _) as [link|e]; cbn [rbind] in Hc; [|discriminate].
    injection Hc as <-. cbn [with_link name description].
    unfold valid_segment, retained in Hseg.
    apply andb_true_iff in Hseg. destruct Hseg as [_ Hseg].
    apply andb_true_iff in Hseg. destruct Hseg as [Hn Hd].
    split; intros E; rewrite E in *; discriminate.
Qed.

(** C2 (amended).  If the links of the first [MAX_ITEMS] valid segments of a
    text stream resolve without an error, the primary pass returns exactly
    their candidates, in document order: [min N MAX_ITEMS] of them for [N]
    valid segments, each with a non-empty name and description.  And whatever
    the input, the primary pass, [extract_article_entries] and
    [extract_by_headings] never return more than [MAX_ITEMS] candidates. *)
Theorem primary_returns_first_valid_segments :
  (forall mc text cands,
      map (candidate_of mc) (firstn MAX_ITEMS (valid_segments text)) = map Ok cands ->
      primary_pass mc text = Ok cands /\
      List.length cands = Nat.min (List.length (valid_segments text)) MAX_ITEMS /\
      Forall (fun e => name e <> [] /\ description e <> []) cands) /\
  (forall mc text l, primary_pass mc text = Ok l -> List.length l <= MAX_ITEMS) /\
  (forall soup l, snd (extract_from_soup soup) = Ok l -> List.length l <= MAX_ITEMS) /\
  (forall soup l, extract_by_headings soup = Ok l -> List.length l <= MAX_ITEMS).
Proof.
  split; [|split; [|split]].
  - intros mc text cands H. split; [|split].
    + unfold primary_pass.
      rewrite (@segment_loop_spec _ mc (re_split no_flags split_re text) [] cands);
        [reflexivity | cbv; lia | exact H].
    + apply (f_equal (@List.length _)) in H.
      rewrite !length_map, length_firstn in H. lia.
    + eapply candidates_retained; [exact H|].
      apply Forall_forall. intros seg Hin.
      apply firstn_In in Hin. unfold valid_segments in Hin.
      apply filter_In in Hin. tauto.
  - intros mc text l H. unfold primary_pass in H.
    eapply segment_loop_bound; [|exact H]. cbv; lia.
  - intros soup l H. unfold extract_from_soup in H.
    destruct (find_main_content soup) as [mc|]; cbn [snd] in H.
    + destruct (primary_pass mc (full_text mc)) as [[|e es]|ex]; cbn [snd] in H.
      * destruct (extract_by_headings soup); cbn [rbind] in H; [|discriminate].
        apply Ok_inj in H. subst l. apply firstn_le_length.
      * apply Ok_inj in H. subst l. apply firstn_le_length.
      * discriminate.
    + injection H as <-. cbv; lia.
  - intros soup l H. unfold extract_by_headings in H.
    eapply heading_loop_bound; [|exact H]. cbv; lia.
Qed.


(** C4.  The candidates returned by the fallback extractor have pairwise
    distinct lower-cased names, and a heading whose lower-cased name is
    already in [seen] is skipped. *)
Theorem fallback_names_are_distinct (soup : node) :
  (forall l, extract_by_headings soup = Ok l -> NoDup (map name_key l)) /\
  (forall h rest entries seen,
      In (lower (heading_name h)) seen ->
      heading_loop (h :: rest) entries seen = heading_loop rest entries seen).
Proof.
  split; [|intros; apply heading_loop_skips_seen; assumption].
  intros l H. unfold extract_by_headings in H.
  destruct (@heading_loop_inv _
              (fun entries seen => NoDup (map name_key entries) /\
                                   Forall (fun e => In (name_key e) seen) entries))
    with (4 := H) as (seen' & Hnd & _).
  - intros entries seen key [Hnd Hall]. split; [exact Hnd|].
    eapply Forall_impl; [|exact Hall]. intros e He. right. exact He.
  - intros entries seen h e [Hnd Hall] _ Hfresh _ _ _. split.
    + rewrite map_app. cbn [map]. apply NoDup_app; [exact Hnd | |].
      * constructor; [intros []|constructor].
      * intros k Hk [<-|[]]. apply Hfresh.
        apply in_map_iff in Hk. destruct Hk as (e' & <- & He').
        exact (proj1 (Forall_forall _ _) Hall e' He').
    + apply Forall_app. split.
      * eapply Forall_impl; [|exact Hall]. intros e' He'. right. exact He'.
      * constructor; [left; reflexivity|constructor].
  - split; constructor.
  - exact Hnd.
Qed.


(** C10.  Every candidate of the fallback extractor has a name of at least
    two whitespace-separated words: a heading whose name, after the ordinal
    prefix is stripped, has fewer than two words is skipped. *)
Theorem fallback_requires_two_words (soup : node) :
  (forall l e, extract_by_headings soup = Ok l -> In e l ->
               2 <= List.length (split_ws (name e))) /\
  (forall h rest entries seen,
      List.length (split_ws (heading_name h)) < 2 ->
      heading_loop (h :: rest) entries seen = heading_loop rest entries seen).
Proof.
  split; [|intros; apply heading_loop_skips_single_word; assumption].
  intros l e H Hin. unfold extract_by_headings in H.
  destruct (@heading_loop_inv _
              (fun entries _ => Forall (fun e => 2 <= List.length (split_ws (name e))) entries))
    with (4 := H) as (seen' & Hall).
  - intros; assumption.
  - intros es seen h e0 Hall _ _ Hw _ _. apply Forall_app. split; [exact Hall|].
    constructor; [exact Hw|constructor].
  - constructor.
  - exact (proj1 (Forall_forall _ _) Hall e Hin).
Qed.

End ExtractorClaims.

(* ================================================================== *)
(** ** The claims about fetching and enrichment *)
(* ================================================================== *)

Section EffectClaims.
Context {RT : Runtime}.
Variable http : nat -> str -> result str.
Variable entropy : nat -> N * positive.
Variable html_parser : str -> result node.

Lemma courtesy_delay_ok (A : Type) (k : M A) w :
  bind (random_random entropy) (fun jitter => bind (time_sleep (1 + (2 - 1) * jitter)) (fun _ => k)) w
  = k (after_delay entropy w).
Proof.
  unfold bind at 1. unfold random_random. unfold bind.
  rewrite time_sleep_ok.
  - reflexivity.
  - pose proof (unit_fraction_range (entropy (draws w))). lra.
Qed.

(** C7.  Assembling the row of a candidate always succeeds.  The row carries
    the candidate's name, description, opening hours and link unchanged; its
    address is the candidate's address when that is non-empty, and the
    enricher's address only when the candidate's address is empty. *)
Theorem enrichment_fills_only_an_empty_address (e : entry) (w : world) :
  exists row w',
    assemble_row http entropy html_parser e w = (Ok row, w') /\
    (address e <> [] -> CsvRow.address row = address e) /\
    CsvRow.name row = name e /\
    CsvRow.description row = description e /\
    CsvRow.opening_hours row = opening_hours e /\
    CsvRow.source_link row = source_link e /\
    (address e = [] -> source_link e <> [] ->
     exists venue,
       fst (scrape_venue_info http entropy html_parser (source_link e)
                              (after_delay entropy w)) = Ok venue /\
       CsvRow.address row = Venue.address venue) /\
    (address e = [] -> source_link e = [] -> CsvRow.address row = []).
Proof.
  unfold assemble_row. rewrite courtesy_delay_ok.
  destruct (truthy (source_link e)) eqn:Hl.
  - destruct (scrape_venue_info_total http entropy html_parser (source_link e)
                                      (after_delay entropy w)) as (venue & w1 & Hv).
    unfold bind, try_except. eexists. eexists. rewrite Hv.
    unfold ret. split; [reflexivity|].
    cbn [CsvRow.address CsvRow.name CsvRow.description CsvRow.opening_hours CsvRow.source_link].
    repeat split.
    + intros Ha. destruct (address e); [congruence|reflexivity].
    + intros Ha _. exists venue. rewrite Ha. split; reflexivity.
    + intros _ Hs. rewrite Hs in Hl. discriminate.
  - unfold bind, ret. eexists. eexists. split; [reflexivity|].
    cbn [CsvRow.address CsvRow.name CsvRow.description CsvRow.opening_hours CsvRow.source_link].
    repeat split.
    + intros _ Hs. destruct (source_link e); [congruence|discriminate].
    + intros Ha _. exact Ha.
Qed.

(** C8.  [scrape_venue_info] always returns.  On the empty URL it returns the
    all-empty detail and does nothing to the world (no request).  When the
    fetch raises, or when the fetched page fails to parse, it logs the failure
    and returns the all-empty detail. *)
Theorem scrape_venue_info_never_raises (url : str) (w : world) :
  exists out w',
    scrape_venue_info http entropy html_parser url w = (Ok out, w') /\
    (url = [] -> out = Venue.empty /\ w' = w) /\
    (forall e w1,
        fetch_default http entropy url w = (Raise e, w1) ->
        url <> [] ->
        out = Venue.empty /\ requests w' = requests w1 /\
        trace w' = trace w1 ++ [Logged (ScrapeFailed url e)]) /\
    (forall html e w1,
        fetch_default http entropy url w = (Ok html, w1) ->
        html_parser html = Raise e ->
        url <> [] ->
        out = Venue.empty /\ requests w' = requests w1 /\
        trace w' = trace w1 ++ [Logged (ScrapeFailed url e)]).
Proof.
  unfold scrape_venue_info. destruct url as [|c url'].
  - cbn [truthy negb]. unfold ret. exists Venue.empty, w.
    repeat split; intros; congruence.
  - cbn [truthy negb]. set (url := c :: url').
    unfold try_except, scrape_body. unfold bind at 1.
    destruct (fetch_default http entropy url w) as [[html|e] w1] eqn:Hf.
    + unfold bind, lift. destruct (html_parser html) as [soup|e] eqn:Hp.
      * unfold ret. eexists. eexists. split; [reflexivity|].
        split; [intros; discriminate|]. split.
        -- intros e w2 H. discriminate.
        -- intros html' e w2 H Hp'. injection H as <- <-. congruence.
      * unfold logging, emit, ret. eexists. eexists. split; [reflexivity|].
        split; [intros; discriminate|]. split.
        -- intros e' w2 H. discriminate.
        -- intros html' e' w2 H Hp' _. injection H as <- <-.
           rewrite Hp in Hp'. injection Hp' as <-. auto.
    + unfold bind, logging, emit, ret. eexists. eexists. split; [reflexivity|].
      split; [intros; discriminate|]. split.
      * intros e' w2 H _. injection H as <- <-. auto.
      * intros html' e' w2 H. discriminate.
Qed.

(** C9.  With a backoff base above 1, [fetch] raises if and only if every one
    of its attempts fails.  When they all fail, for [retries >= 1], it issues
    exactly [retries] requests, logs and sleeps [backoff^attempt + jitter]
    after each, raises the failure of the last attempt, and the waits without
    jitter, [backoff^attempt], increase strictly with the attempt number. *)
Theorem fetch_retries_then_reraises (url : str) (retries : Z) (backoff : Q) (w : world) :
  (1 < backoff)%Q ->
  ((exists e w', fetch http entropy url retries backoff w = (Raise e, w')) <->
   (forall k, k < Z.to_nat retries -> exists e, http (requests w + k) url = Raise e)) /\
  (forall errs : nat -> exc,
      (1 <= retries)%Z ->
      (forall k, k < Z.to_nat retries -> http (requests w + k) url = Raise (errs k)) ->
      exists w',
        fetch http entropy url retries backoff w
        = (Raise (errs (Z.to_nat retries - 1)), w') /\
        requests w' = requests w + Z.to_nat retries /\
        trace w' = trace w ++
                   flat_map (failed_attempt entropy url backoff errs w)
                            (seq 0 (Z.to_nat retries)) /\
        (forall a b, (1 <= a)%Z -> (a < b)%Z -> (b <= retries)%Z ->
                     (backoff ^ a < backoff ^ b)%Q)).
Proof.
  intros Hb. assert (Hb0 : (0 <= backoff)%Q) by lra.
  unfold fetch, attempts. split.
  - split.
    + intros (e & w' & H) k Hk.
      eapply fetch_loop_raise_inv; [exact Hb0 | exact H |].
      rewrite length_map, length_seq. exact Hk.
    + intros H.
      assert (Herrs : exists errs : nat -> exc,
                 forall k, k < Z.to_nat retries -> http (requests w + k) url = Raise (errs k)).
      { exists (fun k => match http (requests w + k) url with
                         | Raise e => e
                         | Ok _ => TypeError []
                         end).
        intros k Hk. destruct (H k Hk) as (e & He). rewrite He. reflexivity. }
      destruct Herrs as (errs & Herrs).
      destruct (@fetch_loop_all_fail http entropy url backoff Hb0 (Z.to_nat retries)
                                     0 None w errs Herrs) as (w' & Hrun & _).
      eauto.
  - intros errs Hr Herrs.
    destruct (@fetch_loop_all_fail http entropy url backoff Hb0 (Z.to_nat retries)
                                   0 None w errs Herrs) as (w' & Hrun & Hreq & _ & Htr).
    exists w'. split; [|split; [|split]].
    + rewrite Hrun. destruct (Z.to_nat retries) as [|m] eqn:E; [lia|].
      replace (S m - 1) with m by lia. reflexivity.
    + exact Hreq.
    + rewrite Htr. reflexivity.
    + intros a b _ Hab _. apply Qpower_lt_compat_l; assumption.
Qed.

End EffectClaims.

(* ================================================================== *)
(** ** The claims at concrete inputs *)
(* ================================================================== *)

(** C2, counterexample.  The page has one valid segment, but the anchor that
    matches its name has the href "//[" : [urljoin] raises [ValueError] and
    the extractor returns no candidate at all. *)
Lemma primary_raises_on_malformed_href :
  option_map (fun mc => (List.length (valid_segments (full_text mc)),
                         primary_pass mc (full_text mc)))
             (find_main_content bad_href_soup)
  = Some (1, Raise Url.invalid_ipv6) /\
  extract_from_soup bad_href_soup = ([], Raise Url.invalid_ipv6).
Proof. split; vm_compute; reflexivity. Qed.

(** C2, witness: two valid segments on a page without anchors. *)
Lemma primary_returns_first_valid_segments_witness :
  primary_pass empty_body two_segments
  = Ok [plain_entry "Alpha Beans roastery."; plain_entry "Beta Brew bar."].
Proof.
  apply (proj1 primary_returns_first_valid_segments empty_body two_segments).
  vm_compute. reflexivity.
Defined.



(** C4, witness: two headings that differ in case and ordinal give one
    candidate. *)
Lemma fallback_names_are_distinct_witness :
  extract_by_headings duplicate_headings_soup = Ok [gallery_entry "The Gallery Café"] /\
  NoDup (map name_key [gallery_entry "The Gallery Café"]).
Proof.
  assert (H : extract_by_headings duplicate_headings_soup
              = Ok [gallery_entry "The Gallery Café"]) by (vm_compute; reflexivity).
  split; [exact H|].
  exact (proj1 (fallback_names_are_distinct duplicate_headings_soup) _ H).
Defined.

(** C5, witness. *)
Lemma strip_ordinal_idempotent_witness :
  strip_ordinal (strip_ordinal (py "1. Monmouth Coffee")) = strip_ordinal (py "1. Monmouth Coffee").
Proof.
  apply (proj2 (proj1 (proj2 (strip_ordinal_idempotent_when_single_prefix
                                (py "1. Monmouth Coffee"))))).
  vm_compute. reflexivity.
Defined.



(** C10, witness: the one-word heading "Monmouth" gives no candidate. *)
Lemma fallback_requires_two_words_witness :
  extract_by_headings single_word_soup = Ok [gallery_entry "Gallery Café"] /\
  2 <= List.length (split_ws (name (gallery_entry "Gallery Café"))).
Proof.
  assert (H : extract_by_headings single_word_soup = Ok [gallery_entry "Gallery Café"])
    by (vm_compute; reflexivity).
  split; [exact H|].
  apply (proj1 (fallback_requires_two_words single_word_soup) _ _ H).
  left. reflexivity.
Defined.

(** C7, witness: a candidate with an address, enriched while offline. *)
Lemma enrichment_fills_only_an_empty_address_witness :
  exists row w',
    assemble_row offline no_jitter no_parser bluebird_with_address start = (Ok row, w') /\
    CsvRow.address row = py "12 High St".
Proof.
  destruct (enrichment_fills_only_an_empty_address offline no_jitter no_parser
              bluebird_with_address start) as (row & w' & Hrun & Haddr & _).
  exists row, w'. split; [exact Hrun|].
  apply Haddr. vm_compute. discriminate.
Defined.

(** C8, witness: all three attempts of the fetch fail. *)
Lemma scrape_venue_info_never_raises_witness :
  exists w',
    scrape_venue_info offline no_jitter no_parser venue_url start = (Ok Venue.empty, w') /\
    requests w' = 3.
Proof.
  destruct (scrape_venue_info_never_raises offline no_jitter no_parser venue_url start)
    as (out & w' & Hrun & _ & Hfetch & _).
  destruct (fetch_default offline no_jitter venue_url start) as [r w1] eqn:Hf.
  assert (Hr : r = Raise (RequestException 503%N) /\ requests w1 = 3).
  { vm_compute in Hf. injection Hf as <- <-. split; reflexivity. }
  destruct Hr as [-> Hreq].
  destruct (Hfetch _ _ eq_refl) as (-> & Hreq' & _).
  - vm_compute. discriminate.
  - exists w'. split; [exact Hrun | congruence].
Defined.

(** C9, witness: the default configuration, offline. *)
Lemma fetch_retries_then_reraises_witness :
  exists w',
    fetch offline no_jitter venue_url 3 (7 # 5) start
    = (Raise (RequestException 503%N), w') /\
    requests w' = 3.
Proof.
  destruct (proj2 (@fetch_retries_then_reraises offline no_jitter venue_url 3 (7 # 5)
                     start ltac:(reflexivity))
                  (fun _ => RequestException 503%N))
    as (w' & Hrun & Hreq & _).
  - lia.
  - intros k _. reflexivity.
  - exists w'. split; [exact Hrun | exact Hreq].
Defined.

(* ================================================================== *)
(** ** Further properties of the code *)
(* ================================================================== *)

Section StringFacts.
Context {RT : Runtime}.

Lemma lstrip_suffix s : exists p, s = p ++ lstrip s.
Proof.
  induction s as [|a s (p & IH)]; [exists []; reflexivity|].
  cbn [lstrip]. destruct (isspace a).
  - exists (a :: p). cbn [app]. rewrite <- IH. reflexivity.
  - exists []. reflexivity.
Qed.

Lemma length_lstrip s : List.length (lstrip s) <= List.length s.
Proof.
  destruct (lstrip_suffix s) as (p & H). rewrite H at 2. rewrite length_app. lia.
Qed.

Lemma In_lstrip x s : In x (lstrip s) -> In x s.
Proof.
  destruct (lstrip_suffix s) as (p & H). intros Hin. rewrite H.
  apply in_or_app. right. exact Hin.
Qed.

Lemma length_strip s : List.length (strip s) <= List.length s.
Proof.
  unfold strip, rstrip. rewrite length_rev.
  pose proof (length_lstrip (rev (lstrip s))) as H. rewrite length_rev in H.
  pose proof (length_lstrip s). lia.
Qed.

Lemma In_strip x s : In x (strip s) -> In x s.
Proof.
  unfold strip, rstrip. intros H. apply in_rev in H. apply In_lstrip in H.
  apply in_rev in H. apply In_lstrip in H. exact H.
Qed.

Lemma lstrip_idem s : lstrip (lstrip s) = lstrip s.
Proof.
  induction s as [|a s IH]; [reflexivity|].
  cbn [lstrip]. destruct (isspace a) eqn:E; [exact IH|].
  cbn [lstrip]. rewrite E. reflexivity.
Qed.

Lemma lstrip_snoc l c : isspace c = false -> lstrip (l ++ [c]) = lstrip l ++ [c].
Proof.
  intros Hc. induction l as [|a l IH]; cbn [app lstrip].
  - rewrite Hc. reflexivity.
  - destruct (isspace a); [exact IH | reflexivity].
Qed.

Lemma lstrip_fixed_head a s : lstrip (a :: s) = a :: s -> isspace a = false.
Proof.
  cbn [lstrip]. destruct (isspace a); [|reflexivity].
  intros H. pose proof (length_lstrip s) as Hl. rewrite H in Hl. simpl in Hl. lia.
Qed.

Lemma rstrip_keeps_lead s : lstrip s = s -> lstrip (rstrip s) = rstrip s.
Proof.
  destruct s as [|a s]; [reflexivity|].
  intros H. apply lstrip_fixed_head in H. unfold rstrip. cbn [rev].
  rewrite lstrip_snoc by exact H. rewrite rev_app_distr. cbn [rev app lstrip].
  rewrite H. reflexivity.
Qed.

Lemma rstrip_idem s : rstrip (rstrip s) = rstrip s.
Proof. unfold rstrip. rewrite rev_involutive, lstrip_idem. reflexivity. Qed.

Lemma strip_idem s : strip (strip s) = strip s.
Proof.
  unfold strip at 1.
  replace (lstrip (strip s)) with (strip s).
  - unfold strip. apply rstrip_idem.
  - unfold strip. symmetry. apply rstrip_keeps_lead, lstrip_idem.
Qed.

Lemma split_on_nonempty c s : split_on c s <> [].
Proof.
  destruct s as [|a s]; cbn [split_on]; [discriminate|].
  destruct (split_on c s); [discriminate|]. destruct (a =? c)%N; discriminate.
Qed.

Lemma split_on_pieces c s : Forall (fun p => ~ In c p) (split_on c s).
Proof.
  induction s as [|a s IH]; cbn [split_on].
  - constructor; [intros []|constructor].
  - destruct (split_on c s) as [|piece rest].
    + constructor; [intros []|constructor].
    + inversion IH as [|? ? Hp Hrest]; subst.
      destruct (N.eqb_spec a c) as [->|Hne].
      * constructor; [intros []|]. constructor; assumption.
      * constructor; [|assumption]. intros [H|H]; [congruence|]. exact (Hp H).
Qed.

Lemma replace_char_gone c d s :
  c <> d -> ~ In c (replace [c] [d] s).
Proof.
  intros Hcd. unfold replace. induction s as [|a s IH]; [intros []|].
  cbn [replace_go startswith]. destruct (N.eqb_spec c a) as [<-|Hne]; cbn [andb].
  - cbn [List.length pred app]. intros [H|H]; [congruence|]. exact (IH H).
  - intros [H|H]; [congruence|]. exact (IH H).
Qed.

End StringFacts.

Section SegmentFacts.
Context {RT : Runtime}.

(** X1.  Whatever the text of a segment, the address and the opening hours
    [parse_segment] reads from it hold no newline: the address is the first
    line of the match, and the newlines of the hours are replaced by spaces
    (lines 110-123). *)
Theorem segment_fields_are_single_line (entry_text : str) :
  ~ In 10%N (address (parse_segment entry_text)) /\
  ~ In 10%N (opening_hours (parse_segment entry_text)).
Proof.
  cbn [parse_segment address opening_hours]. split.
  - unfold resolve_address.
    destruct (searched flag_SI addr_re entry_text) as [addr|]; [|intros []].
    intros H. apply In_strip in H.
    pose proof (split_on_pieces 10%N addr) as Hp.
    destruct (split_on 10%N addr) as [|p ps]; [destruct H|].
    inversion Hp; subst. cbn [List.hd] in H. tauto.
  - unfold resolve_hours.
    destruct (searched flag_SI hours_re entry_text) as [h|]; [|intros []].
    apply replace_char_gone. discriminate.
Qed.

End SegmentFacts.

Section SplitFacts.
Context {RT : Runtime}.

Lemma advance_at_split_re i s : advance_at no_flags split_re i s = None.
Proof.
  unfold advance_at, split_re. rewrite rmatch_look_lit by reflexivity.
  rewrite Nat.eqb_refl. destruct (startswith marker s); reflexivity.
Qed.

(** The split at the marker, step by step. *)
Lemma split_go_marker_step a s i cur :
  split_go no_flags split_re (a :: s) i cur 0 =
  if startswith marker (a :: s)
  then rev cur :: split_go no_flags split_re s (S i) [a] 0
  else split_go no_flags split_re s (S i) (a :: cur) 0.
Proof.
  cbn [split_go]. unfold split_re at 1. rewrite rmatch_look_lit by reflexivity.
  destruct (startswith marker (a :: s)); [|reflexivity].
  rewrite Nat.eqb_refl, advance_at_split_re. reflexivity.
Qed.

Lemma split_go_marker_nil i cur : split_go no_flags split_re [] i cur 0 = [rev cur].
Proof.
  cbn [split_go]. unfold split_re. rewrite rmatch_look_lit by reflexivity. reflexivity.
Qed.



Lemma startswith_refl_app p r : startswith p (p ++ r) = true.
Proof.
  induction p as [|a p IH]; [reflexivity|].
  cbn [app startswith]. rewrite N.eqb_refl. exact IH.
Qed.





Lemma contains_offsets p x :
  (forall k, k <= List.length x -> startswith p (skipn k x) = false) ->
  contains p x = false.
Proof.
  induction x as [|a x IH]; intros H.
  - pose proof (H 0 ltac:(simpl; lia)) as H0. cbn [skipn] in H0.
    cbn [contains]. rewrite H0. reflexivity.
  - pose proof (H 0 ltac:(simpl; lia)) as H0. cbn [skipn] in H0.
    cbn [contains]. rewrite H0. cbn [orb].
    apply IH. intros k Hk. exact (H (S k) ltac:(simpl; lia)).
Qed.

Lemma startswith_extend p x y : startswith p x = true -> startswith p (x ++ y) = true.
Proof.
  revert x. induction p as [|a p IH]; intros x H; [reflexivity|].
  destruct x as [|b x]; [discriminate|].
  cbn [app startswith] in *. apply andb_true_iff in H. destruct H as [-> H].
  cbn [andb]. apply IH. exact H.
Qed.

Lemma marker_free_prefix cur s :
  (forall k, k < List.length cur -> startswith marker (skipn k (rev cur ++ s)) = false) ->
  contains marker (rev cur) = false.
Proof.
  intros H. apply contains_offsets. intros k Hk. rewrite length_rev in Hk.
  destruct (Nat.eq_dec k (List.length cur)) as [->|Hne].
  - rewrite <- (length_rev cur), skipn_all. reflexivity.
  - specialize (H k ltac:(lia)).
    destruct (startswith marker (skipn k (rev cur))) eqn:E; [|reflexivity].
    apply startswith_extend with (y := s) in E.
    rewrite skipn_app in H.
    replace (k - List.length (rev cur)) with 0 in H by (rewrite length_rev; lia).
    cbn [skipn] in H. congruence.
Qed.

Lemma split_go_head_marker_free s :
  forall i cur,
    (forall k, k < List.length cur ->
               startswith marker (skipn k (rev cur ++ s)) = false) ->
    contains marker (List.hd [] (split_go no_flags split_re s i cur 0)) = false.
Proof.
  induction s as [|a s IH]; intros i cur H.
  - rewrite split_go_marker_nil. cbn [List.hd]. eapply marker_free_prefix; exact H.
  - rewrite split_go_marker_step. destruct (startswith marker (a :: s)) eqn:E.
    + cbn [List.hd]. eapply marker_free_prefix; exact H.
    + apply IH. intros k Hk. cbn [List.length] in Hk. cbn [rev].
      rewrite <- app_assoc. cbn [app].
      destruct (Nat.eq_dec k (List.length cur)) as [->|Hne].
      * rewrite <- (length_rev cur), skipn_app, skipn_all, Nat.sub_diag. exact E.
      * apply H. lia.
Qed.


End SplitFacts.

Section CandidateFacts.
Context {RT : Runtime}.

Lemma segment_loop_entries (P : entry -> Prop) mc :
  (forall seg link,
      contains marker seg = true ->
      retained (parse_segment seg) = true ->
      find_link (name (parse_segment seg)) (link_elements mc) = Ok link ->
      P (with_link (parse_segment seg) link)) ->
  forall segs entries l,
    Forall P entries -> segment_loop mc segs entries = Ok l -> Forall P l.
Proof.
  intros Hstep. induction segs as [|seg rest IH]; intros entries l Hall H;
    cbn [segment_loop] in H.
  - apply Ok_inj in H. subst l. exact Hall.
  - destruct (contains marker seg) eqn:Hm; cbn [negb] in H; [|eapply IH; eassumption].
    destruct (retained (parse_segment seg)) eqn:Hr; [|eapply IH; eassumption].
    destruct (find_link (name (parse_segment seg)) (link_elements mc)) as [link|ex] eqn:Hl;
      cbn [rbind] in H; [|discriminate].
    assert (Hall' : Forall P (entries ++ [with_link (parse_segment seg) link])).
    { apply Forall_app. split; [exact Hall|]. constructor; [|constructor].
      apply Hstep; assumption. }
    destruct (MAX_ITEMS <=? _).
    + apply Ok_inj in H. subst l. exact Hall'.
    + eapply IH; eassumption.
Qed.

Lemma heading_loop_entries (P : entry -> Prop) :
  (forall h link,
      get_text [32%N] (here h) <> [] ->
      List.length (get_text [32%N] (here h)) <= 100 ->
      2 <= List.length (split_ws (heading_name h)) ->
      heading_link h = Ok link ->
      description (heading_entry h link) <> [] ->
      P (heading_entry h link)) ->
  forall hs entries seen l,
    Forall P entries -> heading_loop hs entries seen = Ok l -> Forall P l.
Proof.
  intros Hstep. induction hs as [|h rest IH]; intros entries seen l Hall H;
    cbn [heading_loop] in H.
  - apply Ok_inj in H. subst l. exact Hall.
  - destruct (truthy (get_text [32%N] (here h))) eqn:Ht; cbn [negb orb] in H;
      [|eapply IH; eassumption].
    destruct (100 <? List.length (get_text [32%N] (here h))) eqn:Hlen;
      [eapply IH; eassumption|].
    apply Nat.ltb_ge in Hlen.
    destruct (existsb _ generic_tokens); [eapply IH; eassumption|].
    fold (heading_name h) in H.
    destruct (existsb (str_eqb (lower (heading_name h))) seen); cbn [orb] in H;
      [eapply IH; eassumption|].
    destruct (List.length (split_ws (heading_name h)) <? 2) eqn:Hw;
      [eapply IH; eassumption|].
    apply Nat.ltb_ge in Hw.
    destruct (heading_link h) as [link|ex] eqn:Hl; cbn [rbind] in H; [|discriminate].
    change (entries ++ [_]) with (entries ++ [heading_entry h link]) in H.
    change (heading_description _) with (description (heading_entry h link)) in H.
    destruct (truthy (description (heading_entry h link))) eqn:Hd.
    + assert (Hall' : Forall P (entries ++ [heading_entry h link])).
      { apply Forall_app. split; [exact Hall|]. constructor; [|constructor].
        apply Hstep; try assumption.
        - destruct (get_text [32%N] (here h)); [discriminate|congruence].
        - destruct (description (heading_entry h link)); [discriminate|congruence]. }
      destruct (MAX_ITEMS <=? _).
      * apply Ok_inj in H. subst l. exact Hall'.
      * eapply IH; eassumption.
    + destruct (MAX_ITEMS <=? _).
      * apply Ok_inj in H. subst l. exact Hall.
      * eapply IH; eassumption.
Qed.

(** A property of the entries both loops build holds of whatever either
    extractor returns. *)
Lemma extractors_entries (P : entry -> Prop) soup :
  (forall mc seg link,
      contains marker seg = true ->
      retained (parse_segment seg) = true ->
      find_link (name (parse_segment seg)) (link_elements mc) = Ok link ->
      P (with_link (parse_segment seg) link)) ->
  (forall h link,
      get_text [32%N] (here h) <> [] ->
      List.length (get_text [32%N] (here h)) <= 100 ->
      2 <= List.length (split_ws (heading_name h)) ->
      heading_link h = Ok link ->
      description (heading_entry h link) <> [] ->
      P (heading_entry h link)) ->
  forall entries,
    snd (extract_from_soup soup) = Ok entries \/ extract_by_headings soup = Ok entries ->
    Forall P entries.
Proof.
  intros Hseg Hhead.
  assert (Hfb : forall l, extract_by_headings soup = Ok l -> Forall P l).
  { intros l H. unfold extract_by_headings in H.
    eapply heading_loop_entries; [exact Hhead | constructor | exact H]. }
  intros entries [H|H]; [|apply Hfb; exact H].
  unfold extract_from_soup in H.
  destruct (find_main_content soup) as [mc|]; cbn [snd] in H.
  - destruct (primary_pass mc (full_text mc)) as [l|ex] eqn:Hp.
    + assert (Hl : Forall P l).
      { unfold primary_pass in Hp.
        eapply segment_loop_entries; [apply Hseg | constructor | exact Hp]. }
      destruct l as [|e0 l]; cbn [snd] in H.
      * destruct (extract_by_headings soup) as [l'|] eqn:Hh; cbn [rbind] in H;
          [|discriminate].
        apply Ok_inj in H. subst entries. apply Forall_forall. intros e He.
        apply firstn_In in He. exact (proj1 (Forall_forall _ _) (Hfb l' eq_refl) e He).
      * apply Ok_inj in H. subst entries. apply Forall_forall. intros e He.
        apply firstn_In in He. exact (proj1 (Forall_forall _ _) Hl e He).
    + discriminate.
  - apply Ok_inj in H. subst entries. constructor.
Qed.

Lemma length_strip_ordinal s : List.length (strip_ordinal s) <= List.length s.
Proof.
  rewrite strip_ordinal_spec. destruct (ordinal_prefix s); [|lia].
  rewrite length_skipn. lia.
Qed.

Lemma clean_name_stripped s :
  strip (clean_name s) = clean_name s /\ List.length (clean_name s) <= List.length s.
Proof.
  unfold clean_name. split; [apply strip_idem|].
  pose proof (length_strip (strip_ordinal s)). pose proof (length_strip_ordinal s). lia.
Qed.

Lemma resolve_name_stripped lines :
  strip (resolve_name lines) = resolve_name lines /\
  List.length (resolve_name lines) <= 100.
Proof.
  induction lines as [|line0 rest IH]; cbn [resolve_name].
  - split; [reflexivity | simpl; lia].
  - destruct (truthy (strip line0) && (List.length (strip line0) <? 100)
              && negb (contains marker (strip line0))) eqn:E; [|exact IH].
    destruct (negb (existsb (fun x => contains x (lower (strip line0))) noise_tokens));
      [|exact IH].
    destruct (2 <=? List.length (split_ws (strip line0))); [|exact IH].
    apply andb_true_iff in E. destruct E as [E _].
    apply andb_true_iff in E. destruct E as [_ E]. apply Nat.ltb_lt in E.
    destruct (clean_name_stripped (strip line0)) as [Hs Hl]. split; [exact Hs | lia].
Qed.

Lemma two_words_nonempty s : 2 <= List.length (split_ws s) -> s <> [].
Proof. intros H ->. cbn in H. lia. Qed.

(** X3.  Every candidate either extractor returns has a non-empty name and a
    non-empty description, and its name is stripped of surrounding white
    space and at most 100 characters long (lines 88-94, 126, 168-175, 234). *)
Theorem candidates_are_well_formed (soup : node) (entries : list entry) (e : entry) :
  snd (extract_from_soup soup) = Ok entries \/ extract_by_headings soup = Ok entries ->
  In e entries ->
  well_formed e.
Proof.
  intros H Hin.
  refine (proj1 (Forall_forall _ _) (@extractors_entries well_formed soup _ _ entries H) e Hin).
  - intros mc seg link _ Hr _. unfold well_formed. cbn [with_link name description].
    unfold retained in Hr. apply andb_true_iff in Hr. destruct Hr as [Hn Hd].
    split; [intros E; rewrite E in Hn; discriminate|].
    split; [intros E; rewrite E in Hd; discriminate|].
    cbn [parse_segment name]. apply resolve_name_stripped.
  - intros h link _ Hlen Hw _ Hd. unfold well_formed.
    split; [cbn [heading_entry name]; apply two_words_nonempty; exact Hw|].
    split; [exact Hd|]. cbn [heading_entry name]. unfold heading_name.
    destruct (clean_name_stripped (get_text [32%N] (here h))) as [Hs Hl].
    split; [exact Hs | lia].
Qed.


End CandidateFacts.

Section FetchMore.
Context {RT : Runtime}.
Variable http : nat -> str -> result str.
Variable entropy : nat -> N * positive.
Variable html_parser : str -> result node.

Lemma fetch_loop_first_success url backoff (Hb : (0 <= backoff)%Q) j :
  forall n a last w errs text,
    j < n ->
    (forall k, k < j -> http (requests w + k) url = Raise (errs k)) ->
    http (requests w + j) url = Ok text ->
    exists w',
      fetch_loop http entropy url backoff (map Z.of_nat (seq (S a) n)) last w
      = (Ok text, w') /\
      requests w' = requests w + S j /\
      draws w' = draws w + j /\
      trace w' = trace w ++
                 flat_map (fun k =>
                   [Get url;
                    Logged (FetchFailed (Z.of_nat (S (a + k))) url (errs k)
                              (backoff ^ Z.of_nat (S (a + k))
                               + unit_fraction (entropy (draws w + k))));
                    Sleep (backoff ^ Z.of_nat (S (a + k))
                           + unit_fraction (entropy (draws w + k)))%Q]) (seq 0 j)
                 ++ [Get url].
Proof.
  induction j as [|j IH]; intros n a last w errs text Hn Hfail Hok.
  - destruct n as [|n]; [lia|]. cbn [seq map]. rewrite Nat.add_0_r in Hok.
    rewrite (@fetch_loop_step_ok http entropy url backoff _ _ last w text Hok).
    eexists. split; [reflexivity|]. cbn [requests draws trace flat_map seq app].
    repeat split; lia.
  - destruct n as [|n]; [lia|]. cbn [seq map].
    assert (H0 : http (requests w) url = Raise (errs 0)).
    { rewrite <- (Hfail 0) by lia. rewrite Nat.add_0_r. reflexivity. }
    rewrite (@fetch_loop_step_fail http entropy url backoff _ _ last w _ Hb H0).
    set (w1 := {| requests := S (requests w) |}).
    destruct (IH n (S a) (Some (errs 0)) w1 (fun k => errs (S k)) text) as
      (w' & Hrun & Hr & Hd & Ht).
    + lia.
    + intros k Hk. cbn [w1 requests]. rewrite <- (Hfail (S k)) by lia. f_equal. lia.
    + cbn [w1 requests]. rewrite <- Hok. f_equal. lia.
    + exists w'. split; [exact Hrun|]. split; [|split].
      * rewrite Hr. cbn [w1 requests]. lia.
      * rewrite Hd. cbn [w1 draws]. lia.
      * rewrite Ht. cbn [w1 trace draws]. rewrite <- !app_assoc. f_equal.
        cbn [seq flat_map]. rewrite <- seq_shift, flat_map_map, !Nat.add_0_r.
        rewrite <- !app_assoc. cbn [app]. do 3 f_equal. f_equal.
        apply flat_map_ext. intros k.
        replace (S a + k) with (a + S k) by lia.
        replace (S (draws w) + k) with (draws w + S k) by lia. reflexivity.
Qed.

(** X5.  [fetch] returns the text of the first attempt that succeeds: when
    the attempts before attempt [j + 1] fail and that one succeeds within
    the retries, the call returns its text after exactly [j + 1] requests,
    having logged and slept once per failure, and makes no further request
    (lines 34-43). *)
Theorem fetch_returns_first_success
        (url : str) (retries : Z) (backoff : Q) (w : world)
        (errs : nat -> exc) (j : nat) (text : str) :
  (0 <= backoff)%Q ->
  j < Z.to_nat retries ->
  (forall k, k < j -> http (requests w + k) url = Raise (errs k)) ->
  http (requests w + j) url = Ok text ->
  exists w',
    fetch http entropy url retries backoff w = (Ok text, w') /\
    requests w' = requests w + S j /\
    trace w' = trace w ++ flat_map (failed_attempt entropy url backoff errs w) (seq 0 j)
                       ++ [Get url].
Proof.
  intros Hb Hj Hfail Hok. unfold fetch, attempts.
  destruct (@fetch_loop_first_success url backoff Hb j (Z.to_nat retries) 0 None w errs
              text Hj Hfail Hok) as (w' & Hrun & Hr & _ & Ht).
  exists w'. split; [exact Hrun|]. split; [exact Hr|]. rewrite Ht. reflexivity.
Qed.

(** X6.  With [retries <= 0] the loop of [fetch] has no iteration: no request
    is made, nothing is logged, and [raise last_exc] with [last_exc = None]
    raises a [TypeError] (lines 33-34, 44). *)
Theorem fetch_without_attempts_raises_type_error
        (url : str) (retries : Z) (backoff : Q) (w : world) :
  (retries <= 0)%Z ->
  fetch http entropy url retries backoff w
  = (Raise (TypeError (py "exceptions must derive from BaseException")), w).
Proof.
  intros H. unfold fetch, attempts.
  replace (Z.to_nat retries) with 0 by lia. reflexivity.
Qed.

End FetchMore.

Section EnricherMore.
Context {RT : Runtime}.
Variable http : nat -> str -> result str.
Variable entropy : nat -> N * positive.
Variable html_parser : str -> result node.

Lemma detail_website_external soup sels :
  detail_website soup sels = [] \/
  (startswith (py "http") (detail_website soup sels) = true /\
   contains (py "timeout.com") (detail_website soup sels) = false).
Proof.
  induction sels as [|sel rest IH]; cbn [detail_website]; [left; reflexivity|].
  destruct (select_one sel soup) as [a|]; [|exact IH].
  destruct (has_href a); [|exact IH].
  destruct (negb (contains (py "timeout.com") (get_or_empty (py "href") a))) eqn:Hc;
    cbn [andb]; [|exact IH].
  destruct (startswith (py "http") (get_or_empty (py "href") a)) eqn:Hs; [|exact IH].
  right. split; [exact Hs|]. apply negb_true_iff. exact Hc.
Qed.

(** X7.  The website [scrape_venue_info] reads from a page is empty, or it
    starts with "http" and does not contain "timeout.com" (lines 267-274). *)
Theorem website_is_external_and_absolute (soup : node) :
  let website := Venue.website (fill_details soup Venue.empty) in
  website = [] \/
  (startswith (py "http") website = true /\ contains (py "timeout.com") website = false).
Proof.
  cbn zeta. unfold fill_details. cbn [Venue.website].
  destruct (detail_website_external soup [sel_nofollow; sel_blank; sel_external])
    as [H|H].
  - rewrite H. cbn [Venue.empty Venue.website]. left. reflexivity.
  - destruct (detail_website soup [sel_nofollow; sel_blank; sel_external]) eqn:E.
    + left. reflexivity.
    + right. exact H.
Qed.

(** X8.  The address read from a venue page: the text of the [address]
    element when there is one; otherwise a window of at most 160 characters
    around the first postcode, and the empty string when the text has no
    postcode (lines 276-286). *)
Theorem address_tag_wins_else_postcode_window (soup : node) :
  (forall addr_tag,
      find (py "address") (soup_root soup) = Some addr_tag ->
      Venue.address (fill_details soup Venue.empty) = get_text [32%N] (here addr_tag)) /\
  (find (py "address") (soup_root soup) = None ->
   List.length (Venue.address (fill_details soup Venue.empty)) <= 160 /\
   (re_search flag_I POSTCODE_RE (get_text [32%N] soup) = None ->
    Venue.address (fill_details soup Venue.empty) = [])).
Proof.
  unfold fill_details, detail_address. cbn [Venue.address]. split.
  - intros addr_tag ->. reflexivity.
  - intros ->. destruct (re_search flag_I POSTCODE_RE (get_text [32%N] soup)) as [m|].
    + split; [|discriminate].
      etransitivity; [apply length_strip|]. unfold slice.
      rewrite length_firstn. lia.
    + split; [cbn; lia | reflexivity].
Qed.

(** X9.  When the fetch and the parse succeed, [scrape_venue_info] returns
    the details read from the parsed page, and does nothing after the fetch:
    no further request, delay or log record (lines 258-298). *)
Theorem scrape_venue_info_reads_the_fetched_page
        (url html : str) (soup : node) (w w1 : world) :
  url <> [] ->
  fetch_default http entropy url w = (Ok html, w1) ->
  html_parser html = Ok soup ->
  scrape_venue_info http entropy html_parser url w
  = (Ok (fill_details soup Venue.empty), w1).
Proof.
  intros Hu Hf Hp. unfold scrape_venue_info.
  destruct url as [|c url']; [congruence|]. cbn [truthy negb].
  unfold try_except, scrape_body, bind, lift, ret. rewrite Hf, Hp. reflexivity.
Qed.

Lemma scrape_venue_info_on_fetch_failure url e w w1 :
  url <> [] ->
  fetch_default http entropy url w = (Raise e, w1) ->
  scrape_venue_info http entropy html_parser url w
  = (Ok Venue.empty, logged w1 [ScrapeFailed url e]).
Proof.
  intros Hu Hf. unfold scrape_venue_info.
  destruct url as [|c url']; [congruence|]. cbn [truthy negb].
  unfold try_except, scrape_body, bind, lift, ret, logging, emit. rewrite Hf. reflexivity.
Qed.


(** The row of one entry, by cases on its link. *)
Lemma assemble_row_spec e w :
  assemble_row http entropy html_parser e w =
  if truthy (source_link e)
  then match scrape_venue_info http entropy html_parser (source_link e)
                               (after_delay entropy w) with
       | (Ok venue, w1) => (Ok (row_of e venue), w1)
       | (Raise ex, w1) =>
           (Ok (row_of e Venue.empty), logged w1 [ScrapeError (source_link e) ex])
       end
  else (Ok (row_of e Venue.empty), after_delay entropy w).
Proof.
  unfold assemble_row. rewrite courtesy_delay_ok.
  destruct (truthy (source_link e)).
  - unfold bind, try_except.
    destruct (scrape_venue_info http entropy html_parser (source_link e)
                                (after_delay entropy w)) as [[venue|ex] w1].
    + reflexivity.
    + unfold logging, emit, ret, row_of, logged. cbn [map Venue.empty Venue.address
        Venue.phone Venue.website].
      destruct (negb (truthy (address e))) eqn:E; [|reflexivity].
      apply negb_true_iff in E. destruct (address e); [reflexivity|discriminate].
  - unfold bind, ret, row_of. cbn [Venue.empty Venue.address Venue.phone Venue.website].
    destruct (negb (truthy (address e))) eqn:E; [|reflexivity].
    apply negb_true_iff in E. destruct (address e); [reflexivity|discriminate].
Qed.


(** X11.  When all three attempts to fetch the page of a candidate fail, its
    row is still built: phone and website are empty, the address is the
    candidate's own, three requests were made, and the last record of the
    log is the failure of [scrape_venue_info] (lines 295-296, 338-356). *)
Theorem failed_enrichment_leaves_contact_fields_empty
        (e : entry) (w : world) (errs : nat -> exc) :
  source_link e <> [] ->
  (forall k, k < 3 -> http (requests w + k) (source_link e) = Raise (errs k)) ->
  exists w',
    assemble_row http entropy html_parser e w = (Ok (row_of e Venue.empty), w') /\
    requests w' = requests w + 3 /\
    List.last (trace w') (Get []) = Logged (ScrapeFailed (source_link e) (errs 2)) /\
    CsvRow.phone (row_of e Venue.empty) = [] /\
    CsvRow.website (row_of e Venue.empty) = [] /\
    CsvRow.address (row_of e Venue.empty) = address e.
Proof.
  intros Hl Hfail. rewrite assemble_row_spec.
  destruct (source_link e) as [|c l] eqn:El; [congruence|]. cbn [truthy].
  rewrite <- El in *.
  destruct (@fetch_loop_all_fail http entropy (source_link e) (7 # 5)
              ltac:(discriminate) 3 0 None (after_delay entropy w) errs Hfail)
    as (w1 & Hrun & Hreq & _ & _).
  rewrite (@scrape_venue_info_on_fetch_failure (source_link e) (errs 2)
             (after_delay entropy w) w1 Hl Hrun).
  eexists. split; [reflexivity|].
  cbn [logged requests trace map]. rewrite Hreq. cbn [after_delay requests].
  split; [reflexivity|]. split; [apply last_last|].
  cbn [row_of CsvRow.phone CsvRow.website CsvRow.address Venue.empty Venue.phone Venue.website
       Venue.address].
  repeat split. destruct (address e); reflexivity.
Qed.

End EnricherMore.

Section MainFacts.
Context {RT : Runtime}.
Variable http : nat -> str -> result str.
Variable entropy : nat -> N * positive.
Variable html_parser : str -> result node.

Lemma row_of_carries e venue : carries e (row_of e venue).
Proof.
  unfold carries, row_of. cbn. repeat split.
  intros H. destruct (address e); [congruence|reflexivity].
Qed.

Lemma assemble_row_total e w :
  exists row w',
    assemble_row http entropy html_parser e w = (Ok row, w') /\ carries e row.
Proof.
  rewrite assemble_row_spec. destruct (truthy (source_link e)).
  - destruct (scrape_venue_info http entropy html_parser (source_link e)
                                (after_delay entropy w)) as [[venue|ex] w1].
    + eexists. eexists. split; [reflexivity | apply row_of_carries].
    + eexists. eexists. split; [reflexivity | apply row_of_carries].
  - eexists. eexists. split; [reflexivity | apply row_of_carries].
Qed.

Lemma assemble_rows_total_aux entries :
  forall w,
  exists rows w',
    assemble_rows http entropy html_parser entries w = (Ok rows, w') /\
    Forall2 carries entries rows.
Proof.
  induction entries as [|e rest IH]; intros w.
  - exists [], w. split; [reflexivity | constructor].
  - cbn [assemble_rows]. unfold bind.
    destruct (assemble_row_total e w) as (row & w1 & Hrow & Hc). rewrite Hrow.
    destruct (IH w1) as (rows & w' & Hrows & Hall). rewrite Hrows.
    exists (row :: rows), w'. split; [reflexivity|]. constructor; assumption.
Qed.

(** X12.  The loop of [main] over the candidates never raises and builds one
    row per candidate, in order; each row carries the name, description,
    opening hours and link of its candidate, and its address when that is
    non-empty (lines 323-357). *)
Theorem assemble_rows_gives_one_row_per_entry (entries : list entry) (w : world) :
  exists rows w',
    assemble_rows http entropy html_parser entries w = (Ok rows, w') /\
    Forall2 carries entries rows /\
    List.length rows = List.length entries /\
    map CsvRow.name rows = map name entries.
Proof.
  destruct (assemble_rows_total_aux entries w) as (rows & w' & Hr & Hall).
  exists rows, w'. split; [exact Hr|]. split; [exact Hall|].
  clear Hr. induction Hall as [|e row es rows Hc Hall IH]; [split; reflexivity|].
  destruct IH as [IH1 IH2]. cbn [List.length map]. destruct Hc as (Hn & _).
  split; [lia | congruence].
Qed.

Lemma log_all_spec ms w : log_all ms w = (Ok tt, logged w ms).
Proof.
  revert w. induction ms as [|m ms IH]; intros w.
  - unfold logged. cbn [log_all fold_right map]. unfold ret. rewrite app_nil_r.
    destruct w; reflexivity.
  - cbn [log_all fold_right]. unfold bind, logging, emit.
    change (fold_right _ _ ms) with (log_all ms). rewrite IH.
    unfold logged. cbn [requests draws trace map]. rewrite <- app_assoc. reflexivity.
Qed.

(** X13.  When the three attempts to fetch the article fail, [main] returns
    without raising and without building a row; after the three failed
    attempts it logs "Main fetch failed" with the last exception, and
    nothing else (lines 305-312). *)
Theorem main_aborts_when_article_fetch_fails (w : world) (errs : nat -> exc) :
  (forall k, k < 3 -> http (requests w + k) URL = Raise (errs k)) ->
  exists w',
    main http entropy html_parser w = (Ok None, w') /\
    requests w' = requests w + 3 /\
    trace w' = trace w ++ flat_map (failed_attempt entropy URL (7 # 5) errs w) (seq 0 3)
                       ++ [Logged (MainFetchFailed (errs 2))].
Proof.
  intros Hfail.
  destruct (@fetch_loop_all_fail http entropy URL (7 # 5) ltac:(discriminate) 3 0 None
              w errs Hfail) as (w1 & Hrun & Hreq & _ & Htr).
  unfold main, bind, try_except. unfold fetch_default, fetch.
  change (attempts 3) with (map Z.of_nat (seq 1 3)). rewrite Hrun.
  unfold logging, emit, ret. eexists. split; [reflexivity|].
  cbn [requests trace]. split; [exact Hreq|]. rewrite Htr, <- app_assoc. reflexivity.
Qed.

Lemma main_step w w1 html :
  fetch_default http entropy URL w = (Ok html, w1) ->
  main http entropy html_parser w =
  match extract_article_entries html_parser html with
  | (logs, Raise ex) => (Raise ex, logged w1 logs)
  | (logs, Ok []) => (Ok None, logged w1 (logs ++ [NoEntries]))
  | (logs, Ok entries) =>
      match assemble_rows http entropy html_parser entries (logged w1 logs) with
      | (Ok rows, w') => (Ok (Some rows), w')
      | (Raise e, w') => (Raise e, w')
      end
  end.
Proof.
  intros Hf. unfold main, bind, try_except. rewrite Hf. unfold ret. cbv beta iota.
  destruct (extract_article_entries html_parser html) as [logs r].
  rewrite log_all_spec. unfold lift. destruct r as [[|e es]|ex]; [|reflexivity|reflexivity].
  unfold logging, emit, logged. cbn [requests draws trace].
  rewrite map_app, app_assoc. reflexivity.
Qed.

(** X14.  After the article is fetched, [main] logs what the extraction
    logged; an exception of the extraction (a parser error, a malformed
    href) is not caught and leaves [main]; without candidates, [main] logs
    "No entries extracted" and builds no row; otherwise it builds one row
    per candidate (lines 314-357). *)
Theorem main_after_a_successful_fetch (w w1 : world) (html : str) :
  fetch_default http entropy URL w = (Ok html, w1) ->
  let run := extract_article_entries html_parser html in
  (forall ex, snd run = Raise ex ->
     main http entropy html_parser w = (Raise ex, logged w1 (fst run))) /\
  (snd run = Ok [] ->
     main http entropy html_parser w = (Ok None, logged w1 (fst run ++ [NoEntries]))) /\
  (forall entries, snd run = Ok entries -> entries <> [] ->
     exists rows w',
       main http entropy html_parser w = (Ok (Some rows), w') /\
       Forall2 carries entries rows).
Proof.
  intros Hf run. subst run. rewrite (@main_step w w1 html Hf).
  destruct (extract_article_entries html_parser html) as [logs r]. cbn [fst snd].
  split; [|split].
  - intros ex ->. reflexivity.
  - intros ->. reflexivity.
  - intros entries -> Hne. destruct entries as [|e rest]; [congruence|].
    destruct (assemble_rows_total_aux (e :: rest) (logged w1 logs))
      as (rows & w' & Hr & Hall).
    rewrite Hr. eauto.
Qed.

End MainFacts.

Section MoreExtractorFacts.
Context {RT : Runtime}.

Lemma split_go_offset_irrelevant s :
  forall i i' cur,
    split_go no_flags split_re s i cur 0 = split_go no_flags split_re s i' cur 0.
Proof.
  induction s as [|a s IH]; intros i i' cur.
  - rewrite !split_go_marker_nil. reflexivity.
  - rewrite !split_go_marker_step. destruct (startswith marker (a :: s)).
    + f_equal. apply IH.
    + apply IH.
Qed.

Lemma split_go_before_first_marker pre text :
  forall i cur,
    (forall k, k < List.length pre -> startswith marker (skipn k (pre ++ text)) = false) ->
    startswith marker text = true ->
    split_go no_flags split_re (pre ++ text) i cur 0
    = (rev cur ++ pre) :: List.tl (split_go no_flags split_re text 0 [] 0).
Proof.
  induction pre as [|a pre IH]; intros i cur Hfree Hm.
  - cbn [app]. rewrite app_nil_r.
    destruct text as [|b text]; [discriminate|].
    rewrite !split_go_marker_step, Hm. cbn [List.tl]. f_equal.
    apply split_go_offset_irrelevant.
  - cbn [app]. rewrite split_go_marker_step.
    pose proof (Hfree 0 ltac:(simpl; lia)) as H0. cbn [skipn app] in H0. rewrite H0.
    rewrite IH.
    + cbn [rev]. rewrite <- app_assoc. reflexivity.
    + intros k Hk. exact (Hfree (S k) ltac:(simpl; lia)).
    + exact Hm.
Qed.

(** X15.  The text before the first "What is it?" is never read by the
    pattern-based pass: when the first marker of [pre ++ text] is at the
    start of [text], the pass gives the same on [pre ++ text] and on [text]
    (lines 70-74). *)
Theorem text_before_first_marker_is_discarded (mc : located) (pre text : str) :
  (forall k, k < List.length pre -> startswith marker (skipn k (pre ++ text)) = false) ->
  startswith marker text = true ->
  primary_pass mc (pre ++ text) = primary_pass mc text.
Proof.
  intros Hfree Hm. unfold primary_pass, re_split.
  rewrite (@split_go_before_first_marker pre text 0 [] Hfree Hm). cbn [rev app].
  pose proof (@split_go_head_marker_free _ (pre ++ text) 0 []
                ltac:(intros k Hk; simpl in Hk; lia)) as Hhead.
  rewrite (@split_go_before_first_marker pre text 0 [] Hfree Hm) in Hhead.
  cbn [rev app List.hd] in Hhead.
  pose proof (@split_go_head_marker_free _ text 0 []
                ltac:(intros k Hk; simpl in Hk; lia)) as Hhead'.
  destruct (split_go no_flags split_re text 0 [] 0) as [|p ps].
  - cbn [List.tl segment_loop]. rewrite Hhead. reflexivity.
  - cbn [List.hd List.tl] in *. cbn [segment_loop]. rewrite Hhead, Hhead'. reflexivity.
Qed.

Lemma collect_siblings_bound sibs :
  forall acc,
    List.length acc <= 10 -> Forall (fun t => t <> []) acc ->
    List.length (collect_siblings sibs acc) <= 10 /\
    Forall (fun t => t <> []) (collect_siblings sibs acc).
Proof.
  induction sibs as [|current rest IH]; intros acc Hlen Hne; cbn [collect_siblings].
  - split; assumption.
  - match goal with |- context [if (?c && (?n <? 10))%bool then _ else _] =>
      destruct (c && (n <? 10))%bool eqn:Hc end;
      [|split; assumption].
    apply andb_true_iff in Hc. destruct Hc as [_ Hc]. apply Nat.ltb_lt in Hc.
    assert (Hstep : List.length (collect_siblings rest
                      (if truthy (get_text [32%N] current)
                       then acc ++ [get_text [32%N] current] else acc)) <= 10 /\
                    Forall (fun t => t <> [])
                      (collect_siblings rest
                         (if truthy (get_text [32%N] current)
                          then acc ++ [get_text [32%N] current] else acc))).
    { apply IH.
      - destruct (truthy (get_text [32%N] current)); [|exact Hlen].
        rewrite length_app, Nat.add_1_r. exact Hc.
      - destruct (get_text [32%N] current) eqn:E; cbn [truthy]; [exact Hne|].
        apply Forall_app. split; [exact Hne|]. constructor; [discriminate|constructor]. }
    destruct (tag_name current) as [t|]; [|exact Hstep].
    destruct (re_match no_flags heading_tag_re t); [split; assumption | exact Hstep].
Qed.

Lemma collect_siblings_stops pre :
  forall acc t attrs cs post post',
    re_match no_flags heading_tag_re t <> None ->
    collect_siblings (pre ++ Tag t attrs cs :: post) acc
    = collect_siblings (pre ++ Tag t attrs cs :: post') acc.
Proof.
  induction pre as [|current pre IH]; intros acc t attrs cs post post' Ht;
    cbn [app collect_siblings].
  - cbn [tag_name]. destruct (re_match no_flags heading_tag_re t); [|congruence].
    destruct (_ && _); reflexivity.
  - match goal with |- context [if (?c && (?n <? 10))%bool then _ else _] =>
      destruct (c && (n <? 10))%bool end; [|reflexivity].
    destruct (tag_name current) as [t'|]; [|apply IH; exact Ht].
    destruct (re_match no_flags heading_tag_re t'); [reflexivity | apply IH; exact Ht].
Qed.

(** X16.  The text collected after a heading holds at most ten pieces, none
    of them empty, and nothing from the next [h1]..[h6] sibling on: what
    follows that heading does not change it (lines 190-200). *)
Theorem sibling_text_is_bounded_and_stops_at_next_heading :
  (forall sibs,
      List.length (collect_siblings sibs []) <= 10 /\
      Forall (fun t => t <> []) (collect_siblings sibs [])) /\
  (forall pre t attrs cs post post',
      In t (map py ["h1"; "h2"; "h3"; "h4"; "h5"; "h6"]%string) ->
      collect_siblings (pre ++ Tag t attrs cs :: post) []
      = collect_siblings (pre ++ Tag t attrs cs :: post') []).
Proof.
  split.
  - intros sibs. apply collect_siblings_bound; [simpl; lia | constructor].
  - intros pre t attrs cs post post' Ht. apply collect_siblings_stops.
    cbn [map In] in Ht.
    repeat (destruct Ht as [<-|Ht]; [vm_compute; discriminate|]). destruct Ht.
Qed.

End MoreExtractorFacts.

Section Provenance.
Context {RT : Runtime}.

Lemma heading_loop_provenance hs :
  forall entries seen l,
    heading_loop hs entries seen = Ok l ->
    forall e, In e l -> In e entries \/ from_heading hs e.
Proof.
  induction hs as [|h rest IH]; intros entries seen l H e Hin; cbn [heading_loop] in H.
  - apply Ok_inj in H. subst l. left. exact Hin.
  - assert (Hskip : forall entries' seen',
               heading_loop rest entries' seen' = Ok l ->
               (In e entries' -> In e entries \/ from_heading (h :: rest) e) ->
               In e entries \/ from_heading (h :: rest) e).
    { intros entries' seen' H' Hold.
      destruct (IH _ _ _ H' e Hin) as [Hi|(h' & link & Hh & Hg & Hl & He)].
      - apply Hold. exact Hi.
      - right. exists h', link. repeat split; try assumption. right. exact Hh. }
    destruct (negb (truthy (get_text [32%N] (here h))) ||
              (100 <? List.length (get_text [32%N] (here h)))).
    { eapply Hskip; [exact H | tauto]. }
    destruct (existsb _ generic_tokens) eqn:Hg.
    { eapply Hskip; [exact H | tauto]. }
    fold (heading_name h) in H.
    destruct (existsb (str_eqb (lower (heading_name h))) seen ||
              (List.length (split_ws (heading_name h)) <? 2)).
    { eapply Hskip; [exact H | tauto]. }
    destruct (heading_link h) as [link|ex] eqn:Hl; cbn [rbind] in H; [|discriminate].
    change (entries ++ [_]) with (entries ++ [heading_entry h link]) in H.
    assert (Hnew : In e (entries ++ [heading_entry h link]) ->
                   In e entries \/ from_heading (h :: rest) e).
    { intros Hi. apply in_app_or in Hi. destruct Hi as [Hi|[<-|[]]]; [left; exact Hi|].
      right. exists h, link. repeat split; try assumption. left. reflexivity. }
    destruct (truthy _).
    + destruct (MAX_ITEMS <=? _).
      * apply Ok_inj in H. subst l. apply Hnew. exact Hin.
      * eapply Hskip; [exact H | exact Hnew].
    + destruct (MAX_ITEMS <=? _).
      * apply Ok_inj in H. subst l. left. exact Hin.
      * eapply Hskip; [exact H | tauto].
Qed.

(** X17.  Every candidate of the heading-based extractor is built from one
    [h2], [h3] or [h4] of the page whose text holds none of the generic
    words: its name is that heading cleaned, and its description, address
    and hours are read from the siblings of that same heading (lines
    165-241). *)
Theorem fallback_entries_come_from_specific_headings
        (soup : node) (l : list entry) (e : entry) :
  extract_by_headings soup = Ok l ->
  In e l ->
  from_heading (find_all [py "h2"; py "h3"; py "h4"] (soup_root soup)) e.
Proof.
  intros H Hin. unfold extract_by_headings in H.
  destruct (heading_loop_provenance _ _ _ H e Hin) as [[]|Hfrom]. exact Hfrom.
Qed.

End Provenance.

(* ================================================================== *)
(** ** The further properties on examples *)
(* ================================================================== *)

(** X3, witness: the page with a site-relative venue link. *)
Lemma candidates_are_well_formed_witness :
  snd (extract_from_soup relative_link_soup)
  = Ok [bluebird_entry "https://www.timeout.com/london/venue/bluebird"] /\
  well_formed (bluebird_entry "https://www.timeout.com/london/venue/bluebird").
Proof.
  assert (H : snd (extract_from_soup relative_link_soup)
              = Ok [bluebird_entry "https://www.timeout.com/london/venue/bluebird"])
    by (vm_compute; reflexivity).
  split; [exact H|].
  refine (@candidates_are_well_formed latin1_runtime relative_link_soup
           [bluebird_entry "https://www.timeout.com/london/venue/bluebird"]
           (bluebird_entry "https://www.timeout.com/london/venue/bluebird") (or_introl H) _).
  exact (or_introl eq_refl).
Defined.


(** X15, witness: a name line before the only marker. *)
Lemma text_before_first_marker_is_discarded_witness :
  primary_pass empty_body (name_line ++ marked_text) = primary_pass empty_body marked_text.
Proof.
  refine (@text_before_first_marker_is_discarded latin1_runtime empty_body name_line marked_text
            _ _).
  - intros k Hk.
    repeat (destruct k as [|k]; [vm_compute; reflexivity|]).
    apply Nat.ltb_lt in Hk. vm_compute in Hk. discriminate.
  - vm_compute. reflexivity.
Defined.

(** X16, witness: a paragraph after the next heading is not collected. *)
Lemma sibling_text_stops_witness :
  collect_siblings ([gallery_text] ++ elem "h2" [Text (py "Next")] :: [gallery_text]) []
  = collect_siblings ([gallery_text] ++ elem "h2" [Text (py "Next")] :: []) [].
Proof.
  refine (proj2 (@sibling_text_is_bounded_and_stops_at_next_heading latin1_runtime)
            [gallery_text] (py "h2") [] [Text (py "Next")] [gallery_text] [] _).
  right. left. reflexivity.
Defined.

(** X5, witness: two failures, then a page. *)
Lemma fetch_returns_first_success_witness :
  exists w',
    fetch (flaky some_page) no_jitter venue_url 3 (7 # 5) start = (Ok some_page, w') /\
    requests w' = 3.
Proof.
  destruct (@fetch_returns_first_success (flaky some_page) no_jitter venue_url 3 (7 # 5) start
              (fun _ => RequestException 503%N) 2 some_page)
    as (w' & Hrun & Hreq & _).
  - vm_compute. discriminate.
  - vm_compute. lia.
  - intros k Hk. destruct k as [|[|k]]; [reflexivity | reflexivity | lia].
  - reflexivity.
  - exists w'. split; [exact Hrun | exact Hreq].
Defined.

(** X6, witness: [retries = 0]. *)
Lemma fetch_without_attempts_raises_type_error_witness :
  fetch offline no_jitter venue_url 0 (7 # 5) start
  = (Raise (TypeError (py "exceptions must derive from BaseException")), start).
Proof.
  apply (@fetch_without_attempts_raises_type_error offline no_jitter venue_url 0 (7 # 5) start).
  lia.
Defined.

(** X8, witness: a page without an [address] element. *)
Lemma address_tag_wins_else_postcode_window_witness :
  List.length (Venue.address (fill_details phone_text_soup Venue.empty)) <= 160.
Proof.
  apply (proj2 (@address_tag_wins_else_postcode_window latin1_runtime phone_text_soup)).
  vm_compute. reflexivity.
Defined.

(** X9, witness: the page of Scenario D, served at once. *)
Lemma scrape_venue_info_reads_the_fetched_page_witness :
  exists w1,
    scrape_venue_info (online some_page) no_jitter (parsed_as scenario_D_soup) venue_url start
    = (Ok (fill_details scenario_D_soup Venue.empty), w1).
Proof.
  eexists.
  apply (@scrape_venue_info_reads_the_fetched_page latin1_runtime (online some_page) no_jitter
           (parsed_as scenario_D_soup) venue_url some_page scenario_D_soup start).
  - vm_compute. discriminate.
  - vm_compute. reflexivity.
  - reflexivity.
Defined.


(** X11, witness: a candidate with a link, offline. *)
Lemma failed_enrichment_leaves_contact_fields_empty_witness :
  exists w',
    assemble_row offline no_jitter no_parser bluebird_with_address start
    = (Ok (row_of bluebird_with_address Venue.empty), w') /\
    requests w' = 3.
Proof.
  destruct (@failed_enrichment_leaves_contact_fields_empty latin1_runtime offline no_jitter
              no_parser bluebird_with_address start (fun _ => RequestException 503%N))
    as (w' & Hrun & Hreq & _).
  - vm_compute. discriminate.
  - intros k _. reflexivity.
  - exists w'. split; [exact Hrun | exact Hreq].
Defined.

(** X13, witness: offline. *)
Lemma main_aborts_when_article_fetch_fails_witness :
  exists w',
    main offline no_jitter no_parser start = (Ok None, w') /\ requests w' = 3.
Proof.
  destruct (@main_aborts_when_article_fetch_fails latin1_runtime offline no_jitter no_parser
              start (fun _ => RequestException 503%N))
    as (w' & Hrun & Hreq & _).
  - intros k _. reflexivity.
  - exists w'. split; [exact Hrun | exact Hreq].
Defined.

(** X14, witness: a page with one heading and one paragraph. *)
Lemma main_after_a_successful_fetch_witness :
  exists rows w',
    main (online some_page) no_jitter (parsed_as gallery_soup) start = (Ok (Some rows), w') /\
    Forall2 carries [gallery_entry "The Gallery Café"] rows.
Proof.
  destruct (fetch_default (online some_page) no_jitter URL start) as [r w1] eqn:Hf.
  assert (Hr : r = Ok some_page).
  { vm_compute in Hf. injection Hf as <- _. reflexivity. }
  subst r.
  destruct (@main_after_a_successful_fetch latin1_runtime (online some_page) no_jitter
              (parsed_as gallery_soup) start w1 some_page Hf) as (_ & _ & Hrows).
  apply (Hrows [gallery_entry "The Gallery Café"]).
  - vm_compute. reflexivity.
  - discriminate.
Defined.

(** X17, witness: the page with two headings of the same name. *)
Lemma fallback_entries_come_from_specific_headings_witness :
  extract_by_headings duplicate_headings_soup = Ok [gallery_entry "The Gallery Café"] /\
  from_heading (find_all [py "h2"; py "h3"; py "h4"] (soup_root duplicate_headings_soup))
               (gallery_entry "The Gallery Café").
Proof.
  assert (H : extract_by_headings duplicate_headings_soup
              = Ok [gallery_entry "The Gallery Café"]) by (vm_compute; reflexivity).
  split; [exact H|].
  refine (@fallback_entries_come_from_specific_headings latin1_runtime duplicate_headings_soup
            [gallery_entry "The Gallery Café"] (gallery_entry "The Gallery Café") H _).
  exact (or_introl eq_refl).
Defined.
